(** * nomad-cli: the speed-test engine and the spinner harness

    A shallow embedding of [speedtest.go] (latency and jitter aggregation,
    quality scoring, phase sequencing of [RunSpeedTest]) and of the spinner
    file ([Spinner], [WithSpinner]), with the properties the design document
    states about them; then the ping tests ([ping.go]), the command-line
    dispatch of [main] and the geocoding of [geocoding.go]. *)

From Stdlib Require Import ZArith List String Ascii Bool Lia Arith PeanoNat.
From Stdlib Require Import Permutation Sorted DecimalString.
From Stdlib Require Import Floats.SpecFloat.
Import ListNotations.

Local Open Scope string_scope.
Local Open Scope Z_scope.

(** ** Go's [int64] and [int]

    Both are 64-bit two's-complement integers on the platforms the tool is
    built for.  A value is a [Z] inside [[-2^63, 2^63)]; every arithmetic
    operation wraps. *)

Module Int64.

Definition min_int : Z := - 2 ^ 63.
Definition max_int : Z := 2 ^ 63 - 1.

Definition in_range (z : Z) : Prop := min_int <= z <= max_int.

Definition wrap (z : Z) : Z := (z + 2 ^ 63) mod 2 ^ 64 - 2 ^ 63.

Definition add (a b : Z) : Z := wrap (a + b).
Definition sub (a b : Z) : Z := wrap (a - b).
Definition mul (a b : Z) : Z := wrap (a * b).

(** Go's [/] on integers truncates towards zero. *)
Definition quot (a b : Z) : Z := wrap (Z.quot a b).

End Int64.

(** ** Go's [time.Duration]: an [int64] count of nanoseconds *)

Definition Duration := Z.

Definition Nanosecond : Duration := 1.
Definition Microsecond : Duration := 1000.
Definition Millisecond : Duration := 1000000.

(** [func (d Duration) Milliseconds() int64 { return int64(d) / 1e6 }] *)
Definition Milliseconds (d : Duration) : Z := Int64.quot d 1000000.

(** [n] milliseconds as a [Duration]. *)
Definition ms (n : Z) : Duration := n * Millisecond.

(** ** Go's [float64]: IEEE 754 binary64

    Values are [spec_float]s; the operations are the Standard Library's
    specification of binary64 ([prec = 53], [emax = 1024]). *)

Definition float64 := spec_float.

Definition float64_valid (x : float64) : bool := valid_binary 53 1024 x.

(** Conversion [float64(n)] of an integer: round to nearest even. *)
Definition float64_of_int (n : Z) : float64 := binary_normalize 53 1024 n 0 false.

Definition f64_div (x y : float64) : float64 := SFdiv 53 1024 x y.
Definition f64_sqrt (x : float64) : float64 := SFsqrt 53 1024 x.

(** [x >= y] on floats; false as soon as one side is NaN. *)
Definition f64_ge (x y : float64) : bool := SFleb y x.
Definition f64_lt (x y : float64) : bool := SFltb x y.

(** The float constants that occur in the scoring code. *)
Definition f64_1 : float64 := Eval cbv in float64_of_int 1.
Definition f64_2 : float64 := Eval cbv in float64_of_int 2.
Definition f64_5 : float64 := Eval cbv in float64_of_int 5.
Definition f64_10 : float64 := Eval cbv in float64_of_int 10.
Definition f64_25 : float64 := Eval cbv in float64_of_int 25.
Definition f64_30 : float64 := Eval cbv in float64_of_int 30.

(** ** The records of [speedtest.go] *)

Record SpeedTestResult := {
  Latency : Duration;
  Jitter : Duration;
  DownloadSpeed : float64;   (* in Mbps *)
  UploadSpeed : float64;     (* in Mbps *)
  ServerName : string;
  ServerCountry : string
}.

Record NetworkQuality := {
  Streaming : string;
  Gaming : string;
  Webchat : string
}.

(** ** Scoring

    The three score functions follow the source statement by statement:
    [score] starts at 0 and each [if / else if] chain adds to it. *)

Notation "a +! b" := (Int64.add a b) (at level 50, left associativity).

Definition calculateStreamingScore (result : SpeedTestResult) : Z :=
  let score := 0 in
  (* Download speed is most important for streaming *)
  let score :=
    if f64_ge (DownloadSpeed result) f64_25 then score +! 40
    else if f64_ge (DownloadSpeed result) f64_10 then score +! 30
    else if f64_ge (DownloadSpeed result) f64_5 then score +! 20
    else if f64_ge (DownloadSpeed result) f64_2 then score +! 10
    else score in
  (* Latency matters for live streaming *)
  let latencyMs := Milliseconds (Latency result) in
  let score :=
    if latencyMs <=? 20 then score +! 30
    else if latencyMs <=? 50 then score +! 20
    else if latencyMs <=? 100 then score +! 10
    else score in
  (* Jitter affects streaming quality *)
  let jitterMs := Milliseconds (Jitter result) in
  let score :=
    if jitterMs <=? 5 then score +! 20
    else if jitterMs <=? 15 then score +! 10
    else score in
  (* Upload speed for live streaming *)
  let score :=
    if f64_ge (UploadSpeed result) f64_5 then score +! 10
    else if f64_ge (UploadSpeed result) f64_2 then score +! 5
    else score in
  score.

Definition calculateGamingScore (result : SpeedTestResult) : Z :=
  let score := 0 in
  (* Latency is most critical for gaming *)
  let latencyMs := Milliseconds (Latency result) in
  let score :=
    if latencyMs <=? 10 then score +! 40
    else if latencyMs <=? 20 then score +! 30
    else if latencyMs <=? 50 then score +! 20
    else if latencyMs <=? 100 then score +! 10
    else score in
  (* Jitter is very important for gaming *)
  let jitterMs := Milliseconds (Jitter result) in
  let score :=
    if jitterMs <=? 2 then score +! 30
    else if jitterMs <=? 5 then score +! 20
    else if jitterMs <=? 10 then score +! 10
    else score in
  (* Download speed for game updates *)
  let score :=
    if f64_ge (DownloadSpeed result) f64_10 then score +! 20
    else if f64_ge (DownloadSpeed result) f64_5 then score +! 15
    else if f64_ge (DownloadSpeed result) f64_2 then score +! 10
    else score in
  (* Upload speed for online gaming *)
  let score :=
    if f64_ge (UploadSpeed result) f64_5 then score +! 10
    else if f64_ge (UploadSpeed result) f64_2 then score +! 5
    else score in
  score.

Definition calculateWebchatScore (result : SpeedTestResult) : Z :=
  let score := 0 in
  (* Latency is critical for real-time communication *)
  let latencyMs := Milliseconds (Latency result) in
  let score :=
    if latencyMs <=? 20 then score +! 30
    else if latencyMs <=? 50 then score +! 20
    else if latencyMs <=? 100 then score +! 10
    else score in
  (* Jitter affects call quality *)
  let jitterMs := Milliseconds (Jitter result) in
  let score :=
    if jitterMs <=? 5 then score +! 25
    else if jitterMs <=? 15 then score +! 15
    else if jitterMs <=? 30 then score +! 5
    else score in
  (* Upload speed for video calls *)
  let score :=
    if f64_ge (UploadSpeed result) f64_5 then score +! 25
    else if f64_ge (UploadSpeed result) f64_2 then score +! 15
    else if f64_ge (UploadSpeed result) f64_1 then score +! 10
    else score in
  (* Download speed for receiving video *)
  let score :=
    if f64_ge (DownloadSpeed result) f64_5 then score +! 20
    else if f64_ge (DownloadSpeed result) f64_2 then score +! 10
    else score in
  score.

(** [getQualityLabel]: a [switch] with no tag, first true case wins. *)
Definition getQualityLabel (score : Z) : string :=
  if score >=? 80 then "Great"
  else if score >=? 60 then "Good"
  else if score >=? 40 then "Average"
  else if score >=? 20 then "Poor"
  else "Bad".

Definition calculateNetworkQuality (result : SpeedTestResult) : NetworkQuality :=
  let streamingScore := calculateStreamingScore result in
  let gamingScore := calculateGamingScore result in
  let webchatScore := calculateWebchatScore result in
  {| Streaming := getQualityLabel streamingScore;
     Gaming := getQualityLabel gamingScore;
     Webchat := getQualityLabel webchatScore |}.

Definition sample_result : SpeedTestResult :=
  {| Latency := 15 * Millisecond; Jitter := 3 * Millisecond;
     DownloadSpeed := f64_30; UploadSpeed := f64_10;
     ServerName := ""; ServerCountry := "" |}.


(** ** The table reading of the scoring policy

    The design document gives the policy as, per use case and per metric, an
    ordered table of (threshold, points) pairs scanned top-down, first match
    wins, default 0.  [scan_at_least] is the scan for throughput (the metric
    must reach the threshold), [scan_at_most] the scan for latency and jitter
    in whole milliseconds (the metric must not exceed it). *)

Fixpoint scan_at_least (table : list (float64 * Z)) (metric : float64) : Z :=
  match table with
  | [] => 0
  | (threshold, points) :: rest =>
      if f64_ge metric threshold then points else scan_at_least rest metric
  end.

Fixpoint scan_at_most (table : list (Z * Z)) (metric : Z) : Z :=
  match table with
  | [] => 0
  | (threshold, points) :: rest =>
      if metric <=? threshold then points else scan_at_most rest metric
  end.

Inductive UseCase := UseStreaming | UseGaming | UseWebchat.

Record ScoreTable := {
  download_table : list (float64 * Z);
  latency_table : list (Z * Z);
  jitter_table : list (Z * Z);
  upload_table : list (float64 * Z)
}.

(** The tables of section 4.2 of the design document. *)
Definition spec_table (u : UseCase) : ScoreTable :=
  match u with
  | UseStreaming =>
      {| download_table := [(f64_25, 40); (f64_10, 30); (f64_5, 20); (f64_2, 10)];
         latency_table := [(20, 30); (50, 20); (100, 10)];
         jitter_table := [(5, 20); (15, 10)];
         upload_table := [(f64_5, 10); (f64_2, 5)] |}
  | UseGaming =>
      {| download_table := [(f64_10, 20); (f64_5, 15); (f64_2, 10)];
         latency_table := [(10, 40); (20, 30); (50, 20); (100, 10)];
         jitter_table := [(2, 30); (5, 20); (10, 10)];
         upload_table := [(f64_5, 10); (f64_2, 5)] |}
  | UseWebchat =>
      {| download_table := [(f64_5, 20); (f64_2, 10)];
         latency_table := [(20, 30); (50, 20); (100, 10)];
         jitter_table := [(5, 25); (15, 15); (30, 5)];
         upload_table := [(f64_5, 25); (f64_2, 15); (f64_1, 10)] |}
  end.

Definition download_points (u : UseCase) (r : SpeedTestResult) : Z :=
  scan_at_least (download_table (spec_table u)) (DownloadSpeed r).
Definition latency_points (u : UseCase) (r : SpeedTestResult) : Z :=
  scan_at_most (latency_table (spec_table u)) (Milliseconds (Latency r)).
Definition jitter_points (u : UseCase) (r : SpeedTestResult) : Z :=
  scan_at_most (jitter_table (spec_table u)) (Milliseconds (Jitter r)).
Definition upload_points (u : UseCase) (r : SpeedTestResult) : Z :=
  scan_at_least (upload_table (spec_table u)) (UploadSpeed r).

(** The score the code computes for a use case. *)
Definition score_of (u : UseCase) (r : SpeedTestResult) : Z :=
  match u with
  | UseStreaming => calculateStreamingScore r
  | UseGaming => calculateGamingScore r
  | UseWebchat => calculateWebchatScore r
  end.

(** A table is descending when its points strictly decrease from top to
    bottom and stay positive. *)
Fixpoint points_descending {T : Type} (table : list (T * Z)) : bool :=
  match table with
  | [] => true
  | (_, p) :: rest =>
      (0 <? p) &&
      match rest with
      | [] => true
      | (_, q) :: _ => (q <? p)
      end && points_descending rest
  end.

(** Thresholds get easier from top to bottom: larger for "at most" tables,
    smaller for "at least" tables. *)
Fixpoint at_most_thresholds_ordered (table : list (Z * Z)) : bool :=
  match table with
  | (t, _) :: (((t', _) :: _) as rest) => (t <? t') && at_most_thresholds_ordered rest
  | _ => true
  end.

Fixpoint at_least_thresholds_ordered (table : list (float64 * Z)) : bool :=
  match table with
  | (t, _) :: (((t', _) :: _) as rest) => f64_lt t' t && at_least_thresholds_ordered rest
  | _ => true
  end.

Definition table_descending (t : ScoreTable) : bool :=
  points_descending (download_table t) && at_least_thresholds_ordered (download_table t) &&
  points_descending (latency_table t) && at_most_thresholds_ordered (latency_table t) &&
  points_descending (jitter_table t) && at_most_thresholds_ordered (jitter_table t) &&
  points_descending (upload_table t) && at_least_thresholds_ordered (upload_table t).

(** One result is a single-metric worsening of another: exactly one of the
    four metrics is strictly worse, every other field is the same. *)
Inductive worsens (r1 r2 : SpeedTestResult) : Prop :=
  | worse_latency :
      Latency r1 < Latency r2 ->
      Jitter r2 = Jitter r1 -> DownloadSpeed r2 = DownloadSpeed r1 ->
      UploadSpeed r2 = UploadSpeed r1 -> worsens r1 r2
  | worse_jitter :
      Jitter r1 < Jitter r2 ->
      Latency r2 = Latency r1 -> DownloadSpeed r2 = DownloadSpeed r1 ->
      UploadSpeed r2 = UploadSpeed r1 -> worsens r1 r2
  | worse_download :
      f64_lt (DownloadSpeed r2) (DownloadSpeed r1) = true ->
      Latency r2 = Latency r1 -> Jitter r2 = Jitter r1 ->
      UploadSpeed r2 = UploadSpeed r1 -> worsens r1 r2
  | worse_upload :
      f64_lt (UploadSpeed r2) (UploadSpeed r1) = true ->
      Latency r2 = Latency r1 -> Jitter r2 = Jitter r1 ->
      DownloadSpeed r2 = DownloadSpeed r1 -> worsens r1 r2.

(** ** The latency phase of [RunSpeedTest] (lines 68-97)

    [int64(f)] of a float truncates towards zero.  When the value is NaN,
    infinite or outside [int64] the Go specification leaves the result to the
    implementation; [ConvFallback] is that implementation choice. *)

Definition ConvFallback := float64 -> Z.

(** amd64: the "integer indefinite" value; arm64: saturation, NaN to 0. *)
Definition amd64_conv : ConvFallback := fun _ => Int64.min_int.
Definition arm64_conv : ConvFallback := fun f =>
  match f with
  | S754_infinity false | S754_finite false _ _ => Int64.max_int
  | S754_infinity true | S754_finite true _ _ => Int64.min_int
  | _ => 0
  end.

Definition int64_of_float64 (fallback : ConvFallback) (f : float64) : Z :=
  match f with
  | S754_zero _ => 0
  | S754_finite s m e =>
      let magnitude :=
        if 0 <=? e then Zpos m * 2 ^ e else Zpos m / 2 ^ (- e) in
      let z := if s then - magnitude else magnitude in
      if (Int64.min_int <=? z) && (z <=? Int64.max_int) then z else fallback f
  | _ => fallback f
  end.

(** [len(latencies)], already converted to [int64]. *)
Definition len (latencies : list Z) : Z := Int64.wrap (Z.of_nat (List.length latencies)).

(** [for _, lat := range latencies { sum += lat }] *)
Definition sum_loop (latencies : list Z) : Z :=
  fold_left (fun sum lat => sum +! lat) latencies 0.

(** [for _, lat := range latencies { diff := lat - avgLatency; variance += diff * diff }] *)
Definition variance_loop (avgLatency : Z) (latencies : list Z) : Z :=
  fold_left
    (fun variance lat =>
       let diff := Int64.sub lat avgLatency in
       variance +! Int64.mul diff diff)
    latencies 0.

Definition avgLatency_of (latencies : list Z) : Z :=
  Int64.quot (sum_loop latencies) (len latencies).

(** [int64(math.Sqrt(float64(variance) / float64(len(latencies))))] *)
Definition jitterValue_of (fallback : ConvFallback) (latencies : list Z) : Z :=
  let variance := variance_loop (avgLatency_of latencies) latencies in
  int64_of_float64 fallback
    (f64_sqrt (f64_div (float64_of_int variance) (float64_of_int (len latencies)))).

(** The fields of the library's [speedtest.Server] that the tool reads or
    writes.  [DLSpeed] and [ULSpeed] are byte rates, floats. *)
Record Server := {
  Name : string;
  Country : string;
  srvLatency : Duration;
  srvJitter : Duration;
  DLSpeed : float64;
  ULSpeed : float64
}.

Definition set_Latency (d : Duration) (s : Server) : Server :=
  {| Name := Name s; Country := Country s; srvLatency := d;
     srvJitter := srvJitter s; DLSpeed := DLSpeed s; ULSpeed := ULSpeed s |}.
Definition set_Jitter (d : Duration) (s : Server) : Server :=
  {| Name := Name s; Country := Country s; srvLatency := srvLatency s;
     srvJitter := d; DLSpeed := DLSpeed s; ULSpeed := ULSpeed s |}.
Definition set_DLSpeed (v : float64) (s : Server) : Server :=
  {| Name := Name s; Country := Country s; srvLatency := srvLatency s;
     srvJitter := srvJitter s; DLSpeed := v; ULSpeed := ULSpeed s |}.
Definition set_ULSpeed (v : float64) (s : Server) : Server :=
  {| Name := Name s; Country := Country s; srvLatency := srvLatency s;
     srvJitter := srvJitter s; DLSpeed := DLSpeed s; ULSpeed := v |}.

(** The body of [if len(latencies) > 0 { ... }]: the two assignments to
    [server.Latency] and [server.Jitter]. *)
Definition aggregate (fallback : ConvFallback) (latencies : list Z) (server : Server) : Server :=
  if len latencies >? 0 then
    let avgLatency := avgLatency_of latencies in
    (* Try different time units - the values might be in nanoseconds *)
    let server :=
      if avgLatency >? 1000000
      then set_Latency (Int64.mul avgLatency Nanosecond) server
      else set_Latency (Int64.mul avgLatency Microsecond) server in
    let jitterValue := jitterValue_of fallback latencies in
    (* Use same unit as latency *)
    let server :=
      if avgLatency >? 1000000
      then set_Jitter (Int64.mul jitterValue Nanosecond) server
      else set_Jitter (Int64.mul jitterValue Microsecond) server in
    server
  else server.

(** ** [RunSpeedTest]: the phases and what they do to the outside world

    A Go [error] is kept by its message; [nil] is [None].  The calls into the
    speedtest-go library are not part of this repository: a [Library] gives
    what each of them returns.  [DownloadTest] and [UploadTest] leave the
    measured byte rate in the server's [DLSpeed] and [ULSpeed]. *)

Definition error := string.

Record Library := {
  FetchServers : list Server * option error;
  FindServer : list Server -> list Server * option error;
  TCPPing : Server -> list Z * option error;
  DownloadTest : Server -> float64 * option error;
  UploadTest : Server -> float64 * option error;
  Mbps : float64 -> float64;
  conv_fallback : ConvFallback
}.

(** What the run does, in order: terminal writes, spinner start and stop,
    and the calls into the library. *)
Inductive Event :=
  | EvPrintln
  | EvPrintTitle
  | EvSpinnerStart (message : string)
  | EvSpinnerStop
  | EvFetchServers
  | EvFindServer
  | EvTCPPing
  | EvDownloadTest
  | EvUploadTest.

(** A computation appends to the log of events and returns a value. *)
Definition M (A : Type) : Type := list Event -> A * list Event.

Definition ret {A} (a : A) : M A := fun log => (a, log).
Definition bind {A B} (m : M A) (k : A -> M B) : M B :=
  fun log => let '(a, log') := m log in k a log'.
Definition emit (e : Event) : M unit := fun log => (tt, (log ++ [e])%list).

Notation "x <- m ;; k" := (bind m (fun x => k))
  (at level 61, m at next level, right associativity).
Notation "m ;; k" := (bind m (fun _ => k))
  (at level 61, right associativity).

(** [WithSpinner] as its caller sees it: the spinner runs for the duration of
    [fn] and the call returns what [fn] returned.  The closure [fn] also
    yields the new value of the variable it captured. *)
Definition WithSpinner {S : Type} (message : string) (fn : M (S * option error))
  : M (S * option error) :=
  emit (EvSpinnerStart message) ;;
  r <- fn ;;
  emit EvSpinnerStop ;;
  ret r.

Definition Outcome : Type :=
  option SpeedTestResult * option NetworkQuality * option error.

Definition fail (msg : string) : M Outcome := ret (None, None, Some msg).

Definition RunSpeedTest (lib : Library) : M Outcome :=
  emit EvPrintln ;;
  emit EvPrintTitle ;;
  (* Fetch server list *)
  r <- WithSpinner "Fetching server list..."
         (emit EvFetchServers ;; ret (FetchServers lib)) ;;
  let '(servers, err) := r in
  match err with
  | Some e => fail ("failed to fetch server list: " ++ e)%string
  | None =>
  (* Find the best servers *)
  emit EvFindServer ;;
  let '(targets, err) := FindServer lib servers in
  match err with
  | Some e => fail ("failed to find servers: " ++ e)%string
  | None =>
  match targets with
  | [] => fail "no servers found"
  | server :: _ =>
  (* Test real latency and jitter using TCP ping *)
  r <- WithSpinner "Testing latency and jitter..."
         (emit EvTCPPing ;;
          let '(latencies, err) := TCPPing lib server in
          match err with
          | Some e => ret (server, Some e)
          | None => ret (aggregate (conv_fallback lib) latencies server, None)
          end) ;;
  let '(server, err) := r in
  match err with
  | Some e => fail ("latency test failed: " ++ e)%string
  | None =>
  (* Test download speed *)
  r <- WithSpinner "Testing download speed..."
         (emit EvDownloadTest ;;
          let '(rate, err) := DownloadTest lib server in
          ret (set_DLSpeed rate server, err)) ;;
  let '(server, err) := r in
  match err with
  | Some e => fail ("download test failed: " ++ e)%string
  | None =>
  (* Test upload speed *)
  r <- WithSpinner "Testing upload speed..."
         (emit EvUploadTest ;;
          let '(rate, err) := UploadTest lib server in
          ret (set_ULSpeed rate server, err)) ;;
  let '(server, err) := r in
  match err with
  | Some e => fail ("upload test failed: " ++ e)%string
  | None =>
  let result :=
    {| Latency := srvLatency server;
       Jitter := srvJitter server;
       DownloadSpeed := Mbps lib (DLSpeed server);
       UploadSpeed := Mbps lib (ULSpeed server);
       ServerName := Name server;
       ServerCountry := Country server |} in
  (* Calculate network quality scores *)
  let quality := calculateNetworkQuality result in
  ret (Some result, Some quality, None)
  end end end end end end.

(** Running from an empty log. *)
Definition run (lib : Library) : Outcome * list Event := RunSpeedTest lib [].

Definition is_library_call (e : Event) : bool :=
  match e with
  | EvFetchServers | EvFindServer | EvTCPPing | EvDownloadTest | EvUploadTest => true
  | _ => false
  end.

(** The library calls a run made, in order. *)
Definition calls (lib : Library) : list Event := filter is_library_call (snd (run lib)).

(** ** The spinner harness ([Spinner], [WithSpinner])

    [WithSpinner] runs three goroutines: the caller, the render loop started
    by [Spinner.Start] and the goroutine that runs the action.  They meet on
    the unbuffered channels [s.stop] and [s.done] and on the one-slot
    channels [errChan] and [sigChan].  The model is the interleaving of the
    three, one program point per blocking or writing statement. *)

Module Harness.

(** [NewSpinner]: the frames. *)
Definition frames : list string :=
  ["⠋"; "⠙"; "⠹"; "⠸"; "⠼"; "⠴"; "⠦"; "⠧"; "⠇"; "⠏"].

(** A write to the terminal: a spinner frame, ["\r%s %s"] with the frame
    at [pos] and the message, or the clearing sequence ["\r\033[K"]. *)
Inductive Write :=
  | Frame (pos : nat) (message : string)
  | ClearLine.

Definition is_frame (w : Write) : bool :=
  match w with Frame _ _ => true | ClearLine => false end.

(** The caller, inside [WithSpinner] and then inside [spinner.Stop]. *)
Inductive MainPC :=
  | MStart                          (* spinner.Start(message) *)
  | MSpawn                          (* go func() { errChan <- fn() }() *)
  | MRecvErr                        (* err := <-errChan *)
  | MSendStop (err : option error)  (* Stop: s.stop <- true *)
  | MRecvDone (err : option error)  (* Stop: <-s.done *)
  | MClear (err : option error)     (* Stop: fmt.Print("\r\033[K") *)
  | MReturn (err : option error)    (* return err *)
  | MReturned (v : option error).

(** The render loop of [Start]. *)
Inductive RenderPC :=
  | RIdle        (* not started yet *)
  | RSelect      (* at the select *)
  | RPrint       (* default: fmt.Printf("\r%s %s", s.frames[s.pos], message) *)
  | RAdvance     (* s.pos = (s.pos + 1) % len(s.frames) *)
  | RSleep       (* time.Sleep(100 * time.Millisecond) *)
  | RSendDone    (* case <-s.stop: s.done <- true *)
  | RReturned    (* return *)
  | RSigStop.    (* case <-sigChan: s.Stop(), at its s.stop <- true; the
                    only receive on s.stop is the select of this same
                    goroutine, so this send never completes and the
                    os.Exit(1) behind it is not reached *)

(** The goroutine that runs the action. *)
Inductive ActionPC :=
  | AIdle
  | ARunning                        (* inside fn() *)
  | ASend (e : option error)        (* errChan <- (the value fn returned) *)
  | ADone.

Record State := {
  main : MainPC;
  render : RenderPC;
  action : ActionPC;
  pos : nat;                         (* s.pos *)
  errChan : list (option error);     (* capacity 1 *)
  sigChan : bool;                    (* capacity 1: a signal is waiting *)
  notified : bool;                   (* signal.Notify has been called *)
  output : list Write;               (* terminal writes, oldest first *)
  produced : option (option error)   (* what fn returned, once it has *)
}.

Definition init : State :=
  {| main := MStart; render := RIdle; action := AIdle; pos := 0%nat;
     errChan := []; sigChan := false; notified := false; output := [];
     produced := None |}.

Definition set_main (m : MainPC) (s : State) : State :=
  {| main := m; render := render s; action := action s; pos := pos s;
     errChan := errChan s; sigChan := sigChan s; notified := notified s;
     output := output s; produced := produced s |}.
Definition set_render (r : RenderPC) (s : State) : State :=
  {| main := main s; render := r; action := action s; pos := pos s;
     errChan := errChan s; sigChan := sigChan s; notified := notified s;
     output := output s; produced := produced s |}.
Definition set_action (a : ActionPC) (s : State) : State :=
  {| main := main s; render := render s; action := a; pos := pos s;
     errChan := errChan s; sigChan := sigChan s; notified := notified s;
     output := output s; produced := produced s |}.
Definition set_pos (n : nat) (s : State) : State :=
  {| main := main s; render := render s; action := action s; pos := n;
     errChan := errChan s; sigChan := sigChan s; notified := notified s;
     output := output s; produced := produced s |}.
Definition set_errChan (c : list (option error)) (s : State) : State :=
  {| main := main s; render := render s; action := action s; pos := pos s;
     errChan := c; sigChan := sigChan s; notified := notified s;
     output := output s; produced := produced s |}.
Definition set_sigChan (b : bool) (s : State) : State :=
  {| main := main s; render := render s; action := action s; pos := pos s;
     errChan := errChan s; sigChan := b; notified := notified s;
     output := output s; produced := produced s |}.
Definition set_notified (b : bool) (s : State) : State :=
  {| main := main s; render := render s; action := action s; pos := pos s;
     errChan := errChan s; sigChan := sigChan s; notified := b;
     output := output s; produced := produced s |}.
Definition write (w : Write) (s : State) : State :=
  {| main := main s; render := render s; action := action s; pos := pos s;
     errChan := errChan s; sigChan := sigChan s; notified := notified s;
     output := (output s ++ [w])%list; produced := produced s |}.
Definition set_produced (e : option error) (s : State) : State :=
  {| main := main s; render := render s; action := action s; pos := pos s;
     errChan := errChan s; sigChan := sigChan s; notified := notified s;
     output := output s; produced := Some e |}.

Definition sending_stop (s : State) : bool :=
  match main s with MSendStop _ => true | _ => false end.

Section Steps.

Variable message : string.

Inductive step : State -> State -> Prop :=
  (* WithSpinner, the caller *)
  | main_start s :
      main s = MStart ->
      step s (set_main MSpawn (set_render RSelect (set_notified true s)))
  | main_spawn s :
      main s = MSpawn ->
      step s (set_main MRecvErr (set_action ARunning s))
  | main_recv_err s e rest :
      main s = MRecvErr -> errChan s = e :: rest ->
      step s (set_main (MSendStop e) (set_errChan rest s))
  (* s.stop is unbuffered: the send in Stop and the receive of the
     select happen together *)
  | stop_rendezvous s e :
      main s = MSendStop e -> render s = RSelect ->
      step s (set_main (MRecvDone e) (set_render RSendDone s))
  (* s.done is unbuffered as well *)
  | done_rendezvous s e :
      main s = MRecvDone e -> render s = RSendDone ->
      step s (set_main (MClear e) (set_render RReturned s))
  | main_clear s e :
      main s = MClear e ->
      step s (set_main (MReturn e) (write ClearLine s))
  | main_return s e :
      main s = MReturn e ->
      step s (set_main (MReturned e) s)
  (* the action *)
  | action_returns s e :
      action s = ARunning ->
      step s (set_action (ASend e) (set_produced e s))
  | action_send s e :
      action s = ASend e -> errChan s = [] ->
      step s (set_action ADone (set_errChan [e] s))
  (* the render loop: select takes default only when no other case can
     proceed *)
  | render_signal s :
      render s = RSelect -> sigChan s = true ->
      step s (set_render RSigStop (set_sigChan false s))
  | render_default s :
      render s = RSelect -> sigChan s = false -> sending_stop s = false ->
      step s (set_render RPrint s)
  | render_print s :
      render s = RPrint ->
      step s (set_render RAdvance (write (Frame (pos s) message) s))
  | render_advance s :
      render s = RAdvance ->
      step s (set_render RSleep
                (set_pos ((pos s + 1) mod List.length frames)%nat s))
  | render_wake s :
      render s = RSleep ->
      step s (set_render RSelect s)
  (* the operating system delivers SIGINT or SIGTERM *)
  | signal_arrives s :
      notified s = true -> sigChan s = false ->
      step s (set_sigChan true s).

Inductive reachable : State -> Prop :=
  | reach_init : reachable init
  | reach_step s s' : reachable s -> step s s' -> reachable s'.

Inductive steps : State -> State -> Prop :=
  | steps_refl s : steps s s
  | steps_next s s' s'' : steps s s' -> step s' s'' -> steps s s''.

End Steps.

Definition all_frames (ws : list Write) : Prop := forallb is_frame ws = true.

(** Frames only, then the clearing sequence as the last write. *)
Definition cleared (ws : list Write) : Prop :=
  exists before, ws = (before ++ [ClearLine])%list /\ all_frames before.

(** What every reachable state satisfies: a value in [errChan] or in the
    caller's [err] is the one the action returned, and the render loop and
    the terminal are where the caller's program point requires. *)
Definition invariant (s : State) : Prop :=
  (forall e, In e (errChan s) -> produced s = Some e) /\
  match action s with
  | AIdle | ARunning => produced s = None
  | ASend e => produced s = Some e
  | ADone => produced s <> None
  end /\
  match main s with
  | MStart => render s = RIdle /\ action s = AIdle /\ all_frames (output s)
  | MSpawn => action s = AIdle /\ all_frames (output s)
  | MRecvErr => all_frames (output s)
  | MSendStop e => produced s = Some e /\ all_frames (output s)
  | MRecvDone e =>
      produced s = Some e /\ all_frames (output s) /\ render s = RSendDone
  | MClear e =>
      produced s = Some e /\ all_frames (output s) /\ render s = RReturned
  | MReturn e | MReturned e =>
      produced s = Some e /\ cleared (output s) /\ render s = RReturned
  end.

(** The caller has started the spinner and has not yet got past the send
    on [s.stop]. *)
Definition before_stop_taken (s : State) : Prop :=
  match main s with
  | MSpawn | MRecvErr | MSendStop _ => True
  | _ => False
  end.

(** One run: the loop draws one frame, the action succeeds, the caller
    stops the spinner and returns. *)
Definition one_frame_run (message : string) : State :=
  {| main := MReturned None; render := RReturned; action := ADone;
     pos := 1%nat; errChan := []; sigChan := false; notified := true;
     output := [Frame 0 message; ClearLine]; produced := Some None |}.

End Harness.

(** The durations of a result are [int64] values. *)
Definition int64_durations (r : SpeedTestResult) : Prop :=
  Int64.in_range (Latency r) /\ Int64.in_range (Jitter r).

(** The most a table can award: the points of its first row. *)
Definition top_points {T : Type} (table : list (T * Z)) : Z :=
  match table with
  | [] => 0
  | (_, p) :: _ => p
  end.

(** [sample_result] with a latency of 150 ms. *)
Definition slow_sample : SpeedTestResult :=
  {| Latency := ms 150; Jitter := Jitter sample_result;
     DownloadSpeed := DownloadSpeed sample_result;
     UploadSpeed := UploadSpeed sample_result;
     ServerName := ""; ServerCountry := "" |}.

(** The ways a phase can fail, from what the library answers: the error
    message [RunSpeedTest] should then return and the library calls it should
    have made by then. *)
Inductive phase_fails (lib : Library) : error -> list Event -> Prop :=
  | fetch_fails servers e :
      FetchServers lib = (servers, Some e) ->
      phase_fails lib ("failed to fetch server list: " ++ e)%string
        [EvFetchServers]
  | find_fails servers targets e :
      FetchServers lib = (servers, None) ->
      FindServer lib servers = (targets, Some e) ->
      phase_fails lib ("failed to find servers: " ++ e)%string
        [EvFetchServers; EvFindServer]
  | no_servers servers :
      FetchServers lib = (servers, None) ->
      FindServer lib servers = ([], None) ->
      phase_fails lib "no servers found" [EvFetchServers; EvFindServer]
  | latency_fails servers server rest latencies e :
      FetchServers lib = (servers, None) ->
      FindServer lib servers = (server :: rest, None) ->
      TCPPing lib server = (latencies, Some e) ->
      phase_fails lib ("latency test failed: " ++ e)%string
        [EvFetchServers; EvFindServer; EvTCPPing]
  | download_fails servers server rest latencies rate e :
      FetchServers lib = (servers, None) ->
      FindServer lib servers = (server :: rest, None) ->
      TCPPing lib server = (latencies, None) ->
      DownloadTest lib (aggregate (conv_fallback lib) latencies server) = (rate, Some e) ->
      phase_fails lib ("download test failed: " ++ e)%string
        [EvFetchServers; EvFindServer; EvTCPPing; EvDownloadTest]
  | upload_fails servers server rest latencies dl rate e :
      FetchServers lib = (servers, None) ->
      FindServer lib servers = (server :: rest, None) ->
      TCPPing lib server = (latencies, None) ->
      DownloadTest lib (aggregate (conv_fallback lib) latencies server) = (dl, None) ->
      UploadTest lib (set_DLSpeed dl (aggregate (conv_fallback lib) latencies server))
        = (rate, Some e) ->
      phase_fails lib ("upload test failed: " ++ e)%string
        [EvFetchServers; EvFindServer; EvTCPPing; EvDownloadTest; EvUploadTest].

(** A server as a zero-valued struct would be, and one that already carries
    a latency of 5 ms. *)
Definition fresh_server : Server :=
  {| Name := "Lisbon"; Country := "Portugal"; srvLatency := 0; srvJitter := 0;
     DLSpeed := S754_zero false; ULSpeed := S754_zero false |}.

Definition measured_server : Server := set_Latency (ms 5) fresh_server.

(** A library whose probe returns [latencies] for the single server [srv]
    and whose throughput tests succeed. *)
Definition lib_with (srv : Server) (latencies : list Z) : Library :=
  {| FetchServers := ([srv], None);
     FindServer := fun servers => (servers, None);
     TCPPing := fun _ => (latencies, None);
     DownloadTest := fun _ => (f64_30, None);
     UploadTest := fun _ => (f64_10, None);
     Mbps := fun rate => rate;
     conv_fallback := amd64_conv |}.

(** A library whose server listing fails. *)
Definition lib_offline : Library :=
  {| FetchServers := ([], Some "dial tcp: no route to host");
     FindServer := fun servers => (servers, None);
     TCPPing := fun _ => ([], None);
     DownloadTest := fun _ => (S754_zero false, None);
     UploadTest := fun _ => (S754_zero false, None);
     Mbps := fun rate => rate;
     conv_fallback := amd64_conv |}.

(** ** Vocabulary for the latency phase *)

(** The exact sum of the samples. *)
Definition total (l : list Z) : Z := fold_right Z.add 0 l.

(** A float that is [+0] or positive and finite, with a mantissa of at most
    53 digits and a value below [2 ^ M]. *)
Definition nonneg_below (M : Z) (f : float64) : Prop :=
  f = S754_zero false \/
  exists m e, f = S754_finite false m e /\
              Zpos (digits2_pos m) <= 53 /\ Zpos (digits2_pos m) + e <= M.

(** Five probes of 10 ms each, in nanoseconds as [TCPPing] returns them. *)
Definition five_equal : list Z := [ms 10; ms 10; ms 10; ms 10; ms 10].

(** Two probes, 100 ms and 4.5 s: the squared deviations no longer fit. *)
Definition two_far_apart : list Z := [ms 100; ms 4500].

(** Two probes of 0.5 ms and 0.7 ms. *)
Definition two_fast : list Z := [500000; 700000].

(** The labels from worst to best. *)
Definition label_rank (label : string) : Z :=
  if String.eqb label "Great" then 4
  else if String.eqb label "Good" then 3
  else if String.eqb label "Average" then 2
  else if String.eqb label "Poor" then 1
  else 0.

(** The terminal during a run of [RunSpeedTest]: [active] tells whether a
    spinner owns the line.  A log is well bracketed when spinners do not
    nest, every spinner started is stopped, the measuring calls happen under
    a spinner, and printing and server selection happen outside. *)
Fixpoint well_bracketed (active : bool) (log : list Event) : bool :=
  match log with
  | [] => negb active
  | EvSpinnerStart _ :: rest => negb active && well_bracketed true rest
  | EvSpinnerStop :: rest => active && well_bracketed false rest
  | (EvFetchServers | EvTCPPing | EvDownloadTest | EvUploadTest) :: rest =>
      active && well_bracketed active rest
  | (EvPrintln | EvPrintTitle | EvFindServer) :: rest =>
      negb active && well_bracketed active rest
  end.

(** [lib] with a server selection that keeps only the first target. *)
Definition first_target_only (lib : Library) : Library :=
  {| FetchServers := FetchServers lib;
     FindServer := fun servers =>
       let '(targets, err) := FindServer lib servers in
       (firstn 1 targets, err);
     TCPPing := TCPPing lib;
     DownloadTest := DownloadTest lib;
     UploadTest := UploadTest lib;
     Mbps := Mbps lib;
     conv_fallback := conv_fallback lib |}.

(** Three probes and the same three in another order. *)
Definition three_probes : list Z := [ms 10; ms 12; ms 17].
Definition three_probes_shuffled : list Z := [ms 17; ms 10; ms 12].

(** The frame positions written so far, oldest first. *)
Fixpoint frame_positions (ws : list Harness.Write) : list nat :=
  match ws with
  | [] => []
  | Harness.Frame p _ :: rest => p :: frame_positions rest
  | Harness.ClearLine :: rest => frame_positions rest
  end.

Definition carries (message : string) (w : Harness.Write) : Prop :=
  match w with
  | Harness.Frame _ m => m = message
  | Harness.ClearLine => True
  end.

(** The frames written so far are 0, 1, 2, ... modulo the number of frames,
    and [s.pos] is the position of the next one. *)
Definition frames_cycle (message : string) (s : Harness.State) : Prop :=
  let n := List.length (frame_positions (Harness.output s)) in
  frame_positions (Harness.output s)
    = map (fun i => i mod List.length Harness.frames)%nat (seq 0 n) /\
  (Harness.pos s < List.length Harness.frames)%nat /\
  ((match Harness.render s with
    | Harness.RAdvance => S (Harness.pos s)
    | _ => Harness.pos s
    end) mod List.length Harness.frames = n mod List.length Harness.frames)%nat /\
  Forall (carries message) (Harness.output s).

Definition in_loop (r : Harness.RenderPC) : bool :=
  match r with
  | Harness.RSelect | Harness.RPrint | Harness.RAdvance | Harness.RSleep => true
  | _ => false
  end.

Definition looping_or_interrupted (r : Harness.RenderPC) : bool :=
  match r with
  | Harness.RSigStop => true
  | _ => in_loop r
  end.

(** Where the render loop and the action are while the caller has not yet
    handed over the stop. *)
Definition handshake (s : Harness.State) : Prop :=
  match Harness.main s with
  | Harness.MStart => Harness.errChan s = []
  | Harness.MSpawn =>
      Harness.errChan s = [] /\ looping_or_interrupted (Harness.render s) = true
  | Harness.MRecvErr =>
      looping_or_interrupted (Harness.render s) = true /\
      match Harness.action s with
      | Harness.AIdle => False
      | Harness.ARunning | Harness.ASend _ => Harness.errChan s = []
      | Harness.ADone => Harness.errChan s <> []
      end
  | Harness.MSendStop _ => looping_or_interrupted (Harness.render s) = true
  | _ => True
  end.

(** How far the caller is from returning when no signal is taken. *)
Definition distance (s : Harness.State) : nat :=
  match Harness.main s with
  | Harness.MStart => 70
  | Harness.MSpawn => 60
  | Harness.MRecvErr =>
      50 + match Harness.action s with
           | Harness.ARunning => 2
           | Harness.ASend _ => 1
           | _ => 0
           end
  | Harness.MSendStop _ =>
      40 + match Harness.render s with
           | Harness.RPrint => 3
           | Harness.RAdvance => 2
           | Harness.RSleep => 1
           | _ => 0
           end
  | Harness.MRecvDone _ => 30
  | Harness.MClear _ => 20
  | Harness.MReturn _ => 10
  | Harness.MReturned _ => 0
  end.

(** The spinner has started, a signal has arrived and the render loop has
    taken it. *)
Definition interrupted_run : Harness.State :=
  {| Harness.main := Harness.MSpawn; Harness.render := Harness.RSigStop;
     Harness.action := Harness.AIdle; Harness.pos := 0%nat;
     Harness.errChan := []; Harness.sigChan := false; Harness.notified := true;
     Harness.output := []; Harness.produced := None |}.

(** ** The ping file ([RunPingTests], [pingServer]) and [handlePing]

    [Server] here is the tool's own struct, not the speed-test library's.
    The go-ping library is a parameter: whether creating the pinger for an
    address fails, whether its run fails, and the average round trip of its
    statistics. *)

Module Ping.

Record Server := { Name : string; Address : string }.

Record PingResult := {
  PingedServer : Server;          (* the field [Server] *)
  Latency : Duration;
  Error : option error
}.

Record Pinger := {
  NewPinger : string -> option error;
  Run : string -> option error;
  AvgRtt : string -> Duration
}.

Definition pingServer (lib : Pinger) (server : Server) : PingResult :=
  match NewPinger lib (Address server) with
  | Some err => {| PingedServer := server; Latency := 0; Error := Some err |}
  | None =>
      match Run lib (Address server) with
      | Some err => {| PingedServer := server; Latency := 0; Error := Some err |}
      | None =>
          {| PingedServer := server; Latency := AvgRtt lib (Address server);
             Error := None |}
      end
  end.

Definition servers : list Server :=
  [ {| Name := "Google DNS"; Address := "8.8.8.8" |};
    {| Name := "Cloudflare DNS"; Address := "1.1.1.1" |};
    {| Name := "Facebook"; Address := "facebook.com" |};
    {| Name := "Sydney"; Address := "139.134.5.51" |};
    {| Name := "London"; Address := "167.98.161.42" |};
    {| Name := "New York"; Address := "151.202.0.84" |};
    {| Name := "Los Angeles"; Address := "45.67.219.208" |};
    {| Name := "Singapore"; Address := "195.85.19.26" |} ].

(** The zero value of [PingResult], as [make] fills the slice. *)
Definition zero_result : PingResult :=
  {| PingedServer := {| Name := ""; Address := "" |}; Latency := 0; Error := None |}.

(** [results[i] = v] *)
Fixpoint assign_at (i : nat) (v : PingResult) (results : list PingResult)
  : list PingResult :=
  match results, i with
  | [], _ => []
  | _ :: rest, O => v :: rest
  | r :: rest, S i' => r :: assign_at i' v rest
  end.

(** [for i, server := range servers { results[i] = pingServer(server) }],
    from index [i] on. *)
Fixpoint ping_from (lib : Pinger) (i : nat) (todo : list Server)
  (results : list PingResult) : list PingResult :=
  match todo with
  | [] => results
  | server :: rest => ping_from lib (S i) rest (assign_at i (pingServer lib server) results)
  end.

Definition RunPingTestsOn (lib : Pinger) (pinged : list Server) : list PingResult :=
  ping_from lib 0 pinged (repeat zero_result (List.length pinged)).

Definition RunPingTests (lib : Pinger) : list PingResult := RunPingTestsOn lib servers.

(** The comparison [handlePing] gives to [sort.Slice]. *)
Definition less (a b : PingResult) : bool :=
  match Error a with
  | Some _ => false
  | None =>
      match Error b with
      | Some _ => true
      | None => Latency a <? Latency b
      end
  end.

(** What [sort.Slice] leaves: no element is less than one before it. *)
Definition sorted_by_less (l : list PingResult) : Prop :=
  StronglySorted (fun a b => less b a = false) l.

Definition succeeded (r : PingResult) : Prop := Error r = None.
Definition failed (r : PingResult) : Prop := Error r <> None.

(** A pinger for which only "facebook.com" fails to resolve. *)
Definition sample_pinger : Pinger :=
  {| NewPinger := fun address =>
       if String.eqb address "facebook.com" then Some "no such host" else None;
     Run := fun _ => None;
     AvgRtt := fun address => if String.eqb address "8.8.8.8" then ms 20 else ms 35 |}.

Definition sample_sorted : list PingResult :=
  [ {| PingedServer := {| Name := "Google DNS"; Address := "8.8.8.8" |};
       Latency := ms 20; Error := None |};
    {| PingedServer := {| Name := "Cloudflare DNS"; Address := "1.1.1.1" |};
       Latency := ms 35; Error := None |};
    {| PingedServer := {| Name := "Facebook"; Address := "facebook.com" |};
       Latency := 0; Error := Some "no such host" |} ].

End Ping.

(** ** The command line ([main])

    [main] as the list of things it does: printing the usage, printing an
    error or a hint, handing over to a handler with its arguments, and
    leaving with an exit code, after which nothing else happens. *)

Module Cli.

Inductive Handler :=
  | CurrencyConversion   (* handleCurrencyConversion *)
  | Weather              (* HandleWeather *)
  | Time                 (* HandleTime *)
  | SpeedTest            (* handleSpeedTest *)
  | PingServers          (* handlePing *)
  | Visa                 (* handleVisa *)
  | Flight.              (* handleFlight *)

Inductive Event :=
  | Usage                                          (* printUsage() *)
  | PrintError (format : string) (args : list string)
  | PrintInfo (format : string)
  | Handle (h : Handler) (args : list string)
  | Exit (code : Z).                               (* os.Exit(code) *)

(** A line feed and a double quote, for the format strings. *)
Definition nl : string := String (ascii_of_nat 10) EmptyString.
Definition dq : string := String (ascii_of_nat 34) EmptyString.

Definition is_one_of (command : string) (names : list string) : bool :=
  existsb (String.eqb command) names.

(** [os.Args[2:]] *)
Definition rest_of (Args : list string) : list string := skipn 2 Args.

Definition main (Args : list string) : list Event :=
  if (List.length Args <? 2)%nat then [Usage; Exit 1]
  else
    let command := nth 1 Args "" in
    if is_one_of command ["cv"; "convert"] then
      if (List.length Args <? 5)%nat then
        [PrintError ("Usage: nomad cv <amount> <from_currency> <to_currency>" ++ nl) [];
         PrintInfo ("Example: nomad cv 1000 thb aud" ++ nl);
         Exit 1]
      else [Handle CurrencyConversion (rest_of Args)]
    else if is_one_of command ["w"; "weather"] then
      (* City is optional *)
      let args := if (3 <=? List.length Args)%nat then rest_of Args else [] in
      [Handle Weather args]
    else if is_one_of command ["t"; "time"] then
      if (List.length Args <? 3)%nat then
        [PrintError ("Usage: nomad time <city or address>" ++ nl) [];
         PrintInfo ("Example: nomad time Tokyo" ++ nl);
         PrintInfo ("Example: nomad time " ++ dq ++ "123 Main St, New York, NY" ++ dq ++ nl);
         Exit 1]
      else [Handle Time (rest_of Args)]
    else if is_one_of command ["s"; "speed"; "speedtest"] then [Handle SpeedTest []]
    else if is_one_of command ["p"; "ping"] then [Handle PingServers []]
    else if is_one_of command ["v"; "visa"] then [Handle Visa (rest_of Args)]
    else if is_one_of command ["f"; "flight"] then [Handle Flight (rest_of Args)]
    else if is_one_of command ["help"; "-h"; "--help"] then [Usage]
    else
      [PrintError ("Unknown command: %s" ++ nl) [command]; Usage; Exit 1].

(** The arguments a handler indexes without checking: [args[0]], [args[1]]
    and [args[2]] in [handleCurrencyConversion]; the others check or join
    what they get. *)
Definition needs (h : Handler) : nat :=
  match h with
  | CurrencyConversion => 3
  | Time => 1
  | _ => 0
  end.

(** [handleSpeedTest] and [handlePing] take no arguments. *)
Definition takes_args (h : Handler) : bool :=
  match h with
  | SpeedTest | PingServers => false
  | _ => true
  end.

Definition is_handle (e : Event) : bool :=
  match e with Handle _ _ => true | _ => false end.

End Cli.

(** ** Geocoding ([geocoding.go])

    Go strings are byte strings, as [string] is here. *)

Module Geo.

(** [fmt.Sprintf("%d", z)] *)
Definition decimal (z : Z) : string := NilZero.string_of_int (Z.to_int z).

(** Put a byte in front of the first part. *)
Definition extend (c : ascii) (parts : list string) : list string :=
  match parts with
  | [] => [String c EmptyString]
  | p :: ps => String c p :: ps
  end.

(** [strings.Split(s, ", ")]: cut at every occurrence of the separator,
    found from left to right and not overlapping. *)
Fixpoint split_comma_space (s : string) : list string :=
  match s with
  | EmptyString => [EmptyString]
  | String c rest =>
      match rest with
      | String c2 rest' =>
          if Ascii.eqb c "," && Ascii.eqb c2 " "
          then EmptyString :: split_comma_space rest'
          else extend c (split_comma_space rest)
      | EmptyString => extend c (split_comma_space rest)
      end
  end.

(** Whether [", "] occurs in [s]. *)
Fixpoint has_comma_space (s : string) : bool :=
  match s with
  | EmptyString => false
  | String c rest =>
      match rest with
      | String c2 _ => (Ascii.eqb c "," && Ascii.eqb c2 " ") || has_comma_space rest
      | EmptyString => false
      end
  end.

(** The first byte is a space. *)
Definition starts_with_space (s : string) : bool :=
  match s with
  | String c _ => Ascii.eqb c " "
  | EmptyString => false
  end.

(** Lines 122-131 of [geocodeAddress]: city and country from the display
    name. *)
Definition city_country (DisplayName : string) : string * string :=
  let parts := split_comma_space DisplayName in
  if (2 <=? List.length parts)%nat
  then (nth 0 parts "", nth (List.length parts - 1) parts "")
  else (DisplayName, "Unknown").

Record NominatimResponse := {
  PlaceID : Z;
  Licence : string;
  OsmType : string;
  OsmID : Z;
  Boundingbox : list string;
  Lat : string;
  Lon : string;
  DisplayName : string;
  Class : string;
  Type_ : string;           (* the field [Type] *)
  Importance : float64;
  Icon : string
}.

(** The anonymous struct [geocodeAddress] returns. *)
Record Coords := {
  cLat : float64;
  cLon : float64;
  cCity : string;
  cCountry : string
}.

Record LocationInfo := {
  locLat : float64;
  locLon : float64;
  Timezone : string;
  City : string;
  Country : string
}.

(** What lies outside the repository: the encoding of the query
    parameters, the HTTP exchange, the JSON decoder and the float parser. *)
Record Http := {
  Encode : list (string * string) -> string;
  NewRequest : string -> option error;
  (* client.Do with the User-Agent header: status code and body *)
  Do : string -> string -> (Z * string) * option error;
  ReadAll : string -> string * option error;
  Unmarshal : string -> list NominatimResponse * option error;
  parseFloat : string -> float64 * option error
}.

Definition geocodeAddress (http : Http) (query : string) : option Coords * option error :=
  let baseURL := "https://nominatim.openstreetmap.org/search" in
  let params := [("q", query); ("format", "json"); ("limit", "1"); ("addressdetails", "1")] in
  let url := baseURL ++ "?" ++ Encode http params in
  match NewRequest http url with
  | Some err => (None, Some ("failed to create request: " ++ err))
  | None =>
  let '((StatusCode, Body), err) := Do http url "NomadCLI/1.0" in
  match err with
  | Some err => (None, Some ("failed to fetch geocoding data: " ++ err))
  | None =>
  if negb (StatusCode =? 200)
  then (None, Some ("geocoding API returned status code: " ++ decimal StatusCode))
  else
  let '(body, err) := ReadAll http Body in
  match err with
  | Some err => (None, Some ("failed to read response body: " ++ err))
  | None =>
  let '(responses, err) := Unmarshal http body in
  match err with
  | Some err => (None, Some ("failed to parse JSON response: " ++ err))
  | None =>
  match responses with
  | [] => (None, Some ("no results found for: " ++ query))
  | response :: _ =>
  (* Parse coordinates *)
  let '(lat, err) := parseFloat http (Lat response) in
  match err with
  | Some err => (None, Some ("invalid latitude: " ++ err))
  | None =>
  let '(lon, err) := parseFloat http (Lon response) in
  match err with
  | Some err => (None, Some ("invalid longitude: " ++ err))
  | None =>
  (* Extract city and country from display name *)
  let '(city, country) := city_country (DisplayName response) in
  (Some {| cLat := lat; cLon := lon; cCity := city; cCountry := country |}, None)
  end end end end end end end.

Definition f64_15 : float64 := Eval cbv in float64_of_int 15.

(** [-hourOffset] on [int] *)
Definition neg (z : Z) : Z := Int64.wrap (- z).

Definition estimateTimezoneFromLongitude (fallback : ConvFallback) (lon : float64) : string :=
  let hourOffset := int64_of_float64 fallback (f64_div lon f64_15) in
  if hourOffset >=? 0
  then "Etc/GMT-" ++ decimal hourOffset
  else "Etc/GMT+" ++ decimal (neg hourOffset).

Definition getTimezoneFromCoords (fallback : ConvFallback) (lat lon : float64)
  : string * option error :=
  let timezone := estimateTimezoneFromLongitude fallback lon in
  (timezone, None).

(** A call either returns or panics (a nil pointer dereference). *)
Inductive Result (A : Type) :=
  | Returns (a : A)
  | Panics.
Arguments Returns {A} a.
Arguments Panics {A}.

Definition getLocationInfo (http : Http) (fallback : ConvFallback) (query : string)
  : Result (option LocationInfo * option error) :=
  (* First, geocode the address/city using Nominatim *)
  let '(coords, err) := geocodeAddress http query in
  match err with
  | Some err => Returns (None, Some ("geocoding failed: " ++ err))
  | None =>
  match coords with
  | None => Panics                  (* coords.Lat on a nil pointer *)
  | Some coords =>
  (* Then get timezone information using the coordinates *)
  let '(timezone, err) := getTimezoneFromCoords fallback (cLat coords) (cLon coords) in
  match err with
  | Some err => Returns (None, Some ("timezone lookup failed: " ++ err))
  | None =>
      Returns
        (Some {| locLat := cLat coords; locLon := cLon coords; Timezone := timezone;
                 City := cCity coords; Country := cCountry coords |}, None)
  end end end.

(** A geocoder that answers every query with Lisbon. *)
Definition lisbon : NominatimResponse :=
  {| PlaceID := 1; Licence := ""; OsmType := "relation"; OsmID := 5400890;
     Boundingbox := []; Lat := "38.7077507"; Lon := "-9.1365919";
     DisplayName := "Lisboa, Portugal"; Class := "boundary"; Type_ := "administrative";
     Importance := S754_zero false; Icon := "" |}.

Definition http_lisbon : Http :=
  {| Encode := fun _ => "q=lisbon";
     NewRequest := fun _ => None;
     Do := fun _ _ => ((200, "body"), None);
     ReadAll := fun body => (body, None);
     Unmarshal := fun _ => ([lisbon], None);
     parseFloat := fun _ => (float64_of_int (-9), None) |}.

(** A geocoder that finds nothing. *)
Definition http_nothing : Http :=
  {| Encode := fun _ => "q=atlantis";
     NewRequest := fun _ => None;
     Do := fun _ _ => ((200, "body"), None);
     ReadAll := fun body => (body, None);
     Unmarshal := fun _ => ([], None);
     parseFloat := fun _ => (S754_zero false, None) |}.

(** The sign bit of a longitude: set west of Greenwich. *)
Definition west (lon : float64) : bool :=
  match lon with
  | S754_zero s | S754_infinity s | S754_finite s _ _ => s
  | S754_nan => false
  end.

(** [|f| <= n] for a finite [f]. *)
Definition magnitude_le (f : float64) (n : Z) : Prop :=
  match f with
  | S754_zero _ => 0 <= n
  | S754_finite _ m e => if 0 <=? e then Zpos m * 2 ^ e <= n else Zpos m <= n * 2 ^ (- e)
  | _ => False
  end.

(** The longitude of New York, -74.006. *)
Definition new_york_lon : float64 :=
  Eval cbv in f64_div (float64_of_int (-74006)) (float64_of_int 1000).

(** The longitude of Lisbon, -9.1365919. *)
Definition lisbon_lon : float64 :=
  Eval cbv in f64_div (float64_of_int (-91365919)) (float64_of_int 10000000).

End Geo.

(** ** The tables read on the duration itself

    The design document words a latency or jitter row as "<= t ms": read on
    the duration, the row is earned when the duration is at most [t]
    milliseconds.  [table_score] is the score of section 4.2 read that way,
    to be compared with the score the code computes. *)

Fixpoint scan_duration_at_most (table : list (Z * Z)) (d : Duration) : Z :=
  match table with
  | [] => 0
  | (threshold, points) :: rest =>
      if d <=? threshold * Millisecond then points else scan_duration_at_most rest d
  end.

Definition table_score (u : UseCase) (r : SpeedTestResult) : Z :=
  scan_at_least (download_table (spec_table u)) (DownloadSpeed r)
  + scan_duration_at_most (latency_table (spec_table u)) (Latency r)
  + scan_duration_at_most (jitter_table (spec_table u)) (Jitter r)
  + scan_at_least (upload_table (spec_table u)) (UploadSpeed r).

(** Download 30 Mbps, upload 10 Mbps, latency 20.5 ms, jitter 16 ms. *)
Definition half_millisecond_result : SpeedTestResult :=
  {| Latency := 20500000; Jitter := 16 * Millisecond;
     DownloadSpeed := f64_30; UploadSpeed := f64_10;
     ServerName := ""; ServerCountry := "" |}.

(** A duration in milliseconds, rounded up. *)
Definition milliseconds_up (d : Duration) : Z := - ((- d) / 1000000).

(** Three probes on a clock that stepped back during the first one. *)
Definition stepped_clock_probes : list Z := [-7000000; 9000000; 13000000].

(** Five probes of 2 s each. *)
Definition five_slow : list Z := [ms 2000; ms 2000; ms 2000; ms 2000; ms 2000].

(** The sum of the squared deviations from [avg], without wrapping. *)
Definition squared_deviations (avg : Z) (l : list Z) : Z :=
  fold_right (fun x acc => (x - avg) * (x - avg) + acc) 0 l.

(** A shift record stands for the exact value [N / D]: its mantissa is the
    integer part, and its round bit is set only from one half upwards. *)
Definition stands_for (mrs : shr_record) (N D : Z) : Prop :=
  shr_m mrs * D <= N < (shr_m mrs + 1) * D /\
  (shr_r mrs = true -> (2 * shr_m mrs + 1) * D <= 2 * N).

(** The whole hours in a finite longitude: [|lon| / 15], rounded down. *)
Definition whole_hours (lon : float64) : Z :=
  match lon with
  | S754_finite _ m e =>
      if 0 <=? e then (Zpos m * 2 ^ e) / 15 else Zpos m / (15 * 2 ^ (- e))
  | _ => 0
  end.

(* ================================================================== *)
(** * Properties *)

(** ** Scoring *)

Ltac split_ifs :=
  repeat match goal with
         | |- context [if ?b then _ else _] => destruct b
         end.

(** Each score is the sum of its four table scans. *)
Lemma score_decomposition (u : UseCase) (r : SpeedTestResult) :
  score_of u r =
  download_points u r + latency_points u r + jitter_points u r + upload_points u r.
Proof.
  destruct u;
    unfold score_of, calculateStreamingScore, calculateGamingScore,
      calculateWebchatScore, download_points, latency_points, jitter_points,
      upload_points, spec_table, scan_at_least, scan_at_most; cbn [download_table
      latency_table jitter_table upload_table];
    generalize (Milliseconds (Latency r)) (Milliseconds (Jitter r));
    intros lat jit; split_ifs; reflexivity.
Qed.

Lemma spec_tables_descending (u : UseCase) : table_descending (spec_table u) = true.
Proof. destruct u; reflexivity. Qed.

(** C2: the label is a total function of the score with inclusive cut
    points: from 80 "Great", 60 to 79 "Good", 40 to 59 "Average", 20 to 39
    "Poor", up to 19 "Bad"; 80 gives "Great", 79 and 60 give "Good", 59
    gives "Average". *)
Theorem getQualityLabel_cut_points (score : Z) :
  (80 <= score -> getQualityLabel score = "Great") /\
  (60 <= score <= 79 -> getQualityLabel score = "Good") /\
  (40 <= score <= 59 -> getQualityLabel score = "Average") /\
  (20 <= score <= 39 -> getQualityLabel score = "Poor") /\
  (score <= 19 -> getQualityLabel score = "Bad") /\
  In (getQualityLabel score) ["Great"; "Good"; "Average"; "Poor"; "Bad"] /\
  getQualityLabel 80 = "Great" /\ getQualityLabel 79 = "Good" /\
  getQualityLabel 60 = "Good" /\ getQualityLabel 59 = "Average".
Proof.
  unfold getQualityLabel.
  destruct (Z.geb_spec score 80); [| destruct (Z.geb_spec score 60);
    [| destruct (Z.geb_spec score 40); [| destruct (Z.geb_spec score 20)]]];
    repeat split; intros; try reflexivity; try lia; simpl; tauto.
Qed.

Lemma getQualityLabel_cut_points_witness :
  60 <= 79 <= 79 /\ getQualityLabel 79 = "Good".
Proof.
  split; [lia |].
  apply (proj1 (proj2 (getQualityLabel_cut_points 79))); lia.
Defined.

(** C3, as the code computes it: for download 30 Mbps, upload 10 Mbps,
    latency 15 ms, jitter 3 ms the streaming score is 100 ("Great"), the
    gaming score is 80 ("Great": 30 for latency, 20 for jitter, 20 for
    download, 10 for upload) and the webchat score is 100 ("Great"). *)
Theorem sample_scores :
  calculateStreamingScore sample_result = 100 /\
  calculateGamingScore sample_result = 80 /\
  calculateWebchatScore sample_result = 100 /\
  latency_points UseGaming sample_result = 30 /\
  calculateNetworkQuality sample_result =
    {| Streaming := "Great"; Gaming := "Great"; Webchat := "Great" |}.
Proof. repeat split; reflexivity. Qed.

(** C3 as stated fails: the gaming score of that result is not 70 and its
    label is not "Good". *)
Lemma sample_gaming_not_70_good :
  ~ (calculateStreamingScore sample_result = 100 /\
     Streaming (calculateNetworkQuality sample_result) = "Great" /\
     calculateGamingScore sample_result = 70 /\
     Gaming (calculateNetworkQuality sample_result) = "Good" /\
     calculateWebchatScore sample_result = 100 /\
     Webchat (calculateNetworkQuality sample_result) = "Great").
Proof. intros (_ & _ & H & _). vm_compute in H. discriminate H. Qed.

(** *** The order on floats *)

Lemma compare_cont_Eq (p q : positive) : Pos.compare_cont Eq p q = (p ?= q)%positive.
Proof. reflexivity. Qed.

Ltac float_order :=
  repeat match goal with
         | H : context [Pos.compare_cont Eq ?p ?q] |- _ =>
             rewrite (compare_cont_Eq p q) in H
         | |- context [Pos.compare_cont Eq ?p ?q] =>
             rewrite (compare_cont_Eq p q)
         end;
  repeat match goal with
         | H : context [(?a ?= ?b)%Z] |- _ =>
             destruct (Z.compare_spec a b); try discriminate H
         | H : context [(?a ?= ?b)%positive] |- _ =>
             destruct (Pos.compare_spec a b); try discriminate H
         end;
  repeat match goal with
         | |- context [(?a ?= ?b)%Z] => destruct (Z.compare_spec a b)
         | |- context [(?a ?= ?b)%positive] => destruct (Pos.compare_spec a b)
         end;
  simpl in *; try reflexivity; try discriminate; try lia.

(** [c <= a] and [a < b] give [c <= b], NaN never being related. *)
Lemma SFleb_SFltb_trans (c a b : spec_float) :
  SFleb c a = true -> SFltb a b = true -> SFleb c b = true.
Proof.
  unfold SFleb, SFltb, SFcompare.
  destruct c as [sc | sc | | sc mc ec], a as [sa | sa | | sa ma ea],
    b as [sb | sb | | sb mb eb];
    try destruct sc; try destruct sa; try destruct sb;
    intros H1 H2; try discriminate H1; try discriminate H2; try reflexivity;
    float_order.
Qed.

(** *** Table scans *)

Lemma points_descending_cons {T : Type} (t : T) (p : Z) (rest : list (T * Z)) :
  points_descending ((t, p) :: rest) = true ->
  0 < p /\ top_points rest <= p /\ points_descending rest = true.
Proof.
  simpl. intros H.
  apply andb_prop in H as [H Hrest]. apply andb_prop in H as [Hp Hq].
  apply Z.ltb_lt in Hp. repeat split; trivial.
  destruct rest as [| [t' q] rest']; simpl; [lia |].
  apply Z.ltb_lt in Hq. lia.
Qed.

Lemma scan_at_most_bounds (table : list (Z * Z)) (m : Z) :
  points_descending table = true ->
  0 <= scan_at_most table m <= top_points table.
Proof.
  induction table as [| [t p] rest IH]; intros H; [simpl; lia |].
  apply points_descending_cons in H as (Hp & Hq & Hrest).
  specialize (IH Hrest). simpl. destruct (m <=? t); lia.
Qed.

Lemma scan_at_least_bounds (table : list (float64 * Z)) (x : float64) :
  points_descending table = true ->
  0 <= scan_at_least table x <= top_points table.
Proof.
  induction table as [| [t p] rest IH]; intros H; [simpl; lia |].
  apply points_descending_cons in H as (Hp & Hq & Hrest).
  specialize (IH Hrest). simpl. destruct (f64_ge x t); lia.
Qed.

(** A larger latency or jitter never scans to more points. *)
Lemma scan_at_most_antitone (table : list (Z * Z)) (a b : Z) :
  points_descending table = true -> a <= b ->
  scan_at_most table b <= scan_at_most table a.
Proof.
  induction table as [| [t p] rest IH]; intros H Hab; [simpl; lia |].
  pose proof (points_descending_cons _ _ _ H) as (Hp & Hq & Hrest).
  pose proof (scan_at_most_bounds rest b Hrest) as Hb.
  specialize (IH Hrest Hab). simpl.
  destruct (Z.leb_spec a t), (Z.leb_spec b t); lia.
Qed.

(** A smaller throughput never scans to more points. *)
Lemma scan_at_least_monotone (table : list (float64 * Z)) (a b : float64) :
  points_descending table = true -> f64_lt a b = true ->
  scan_at_least table a <= scan_at_least table b.
Proof.
  induction table as [| [t p] rest IH]; intros H Hab; [simpl; lia |].
  pose proof (points_descending_cons _ _ _ H) as (Hp & Hq & Hrest).
  pose proof (scan_at_least_bounds rest a Hrest) as Ha.
  specialize (IH Hrest Hab). simpl.
  destruct (f64_ge a t) eqn:Hat.
  - unfold f64_ge, f64_lt in *. rewrite (SFleb_SFltb_trans t a b Hat Hab). lia.
  - destruct (f64_ge b t); lia.
Qed.

Lemma table_descending_parts (t : ScoreTable) :
  table_descending t = true ->
  points_descending (download_table t) = true /\
  points_descending (latency_table t) = true /\
  points_descending (jitter_table t) = true /\
  points_descending (upload_table t) = true.
Proof.
  unfold table_descending. intros H.
  repeat (apply andb_prop in H as [H ?]). auto.
Qed.

(** *** Whole milliseconds *)

Lemma wrap_in_range (z : Z) : Int64.in_range z -> Int64.wrap z = z.
Proof.
  unfold Int64.in_range, Int64.wrap, Int64.min_int, Int64.max_int. intros H.
  rewrite Z.mod_small; lia.
Qed.

Lemma Milliseconds_in_range (d : Duration) :
  Int64.in_range d -> Milliseconds d = Z.quot d 1000000.
Proof.
  intros H. unfold Milliseconds, Int64.quot. apply wrap_in_range.
  unfold Int64.in_range, Int64.min_int, Int64.max_int in *.
  pose proof (Z.quot_le_mono (- 2 ^ 63) d 1000000 ltac:(lia) ltac:(lia)) as Hlo.
  pose proof (Z.quot_le_mono d (2 ^ 63 - 1) 1000000 ltac:(lia) ltac:(lia)) as Hhi.
  change (- 2 ^ 63 ÷ 1000000) with (-9223372036854) in Hlo.
  change ((2 ^ 63 - 1) ÷ 1000000) with 9223372036854 in Hhi. lia.
Qed.

Lemma Milliseconds_mono (d1 d2 : Duration) :
  Int64.in_range d1 -> Int64.in_range d2 -> d1 <= d2 ->
  Milliseconds d1 <= Milliseconds d2.
Proof.
  intros H1 H2 H. rewrite !Milliseconds_in_range by assumption.
  apply Z.quot_le_mono; lia.
Qed.

(** The code reads latency and jitter in whole milliseconds, truncated:
    "at most 20 ms" is any duration below 21 ms. *)
Lemma Milliseconds_at_most (d : Duration) (n : Z) :
  Int64.in_range d -> 0 <= n ->
  (Milliseconds d <= n <-> d < (n + 1) * 1000000).
Proof.
  intros H Hn. rewrite Milliseconds_in_range by assumption.
  destruct (Z_lt_le_dec d 0) as [Hneg | Hpos].
  - pose proof (Z.quot_le_mono d 0 1000000 ltac:(lia) ltac:(lia)) as Hq.
    rewrite Z.quot_0_l in Hq by lia. lia.
  - rewrite Z.quot_div_nonneg by lia.
    pose proof (Z.div_mod d 1000000 ltac:(lia)).
    pose proof (Z.mod_pos_bound d 1000000 ltac:(lia)). nia.
Qed.

(** *** The score as a sum of table scans *)

Lemma scan_duration_rounds_up (table : list (Z * Z)) (d : Duration) :
  scan_duration_at_most table d = scan_at_most table (milliseconds_up d).
Proof.
  induction table as [| [t p] rest IH]; [reflexivity |].
  cbn [scan_duration_at_most scan_at_most]. rewrite IH.
  replace (milliseconds_up d <=? t) with (d <=? t * Millisecond); [reflexivity |].
  unfold milliseconds_up, Millisecond.
  pose proof (Z.div_mod (- d) 1000000 ltac:(lia)).
  pose proof (Z.mod_pos_bound (- d) 1000000 ltac:(lia)).
  destruct (Z.leb_spec d (t * 1000000)), (Z.leb_spec (- (- d / 1000000)) t);
    try reflexivity; lia.
Qed.

Lemma quot_below_rounded_up (d : Duration) : Z.quot d 1000000 <= milliseconds_up d.
Proof.
  unfold milliseconds_up.
  pose proof (Z.div_mod (- d) 1000000 ltac:(lia)).
  pose proof (Z.mod_pos_bound (- d) 1000000 ltac:(lia)).
  destruct (Z_lt_le_dec d 0) as [Hneg | Hpos].
  - replace d with (- (- d)) at 1 by lia.
    rewrite Z.quot_opp_l, Z.quot_div_nonneg by lia. lia.
  - rewrite Z.quot_div_nonneg by lia.
    pose proof (Z.div_mod d 1000000 ltac:(lia)).
    pose proof (Z.mod_pos_bound d 1000000 ltac:(lia)). lia.
Qed.

Lemma whole_milliseconds_rounded_up (a : Z) :
  milliseconds_up (a * Millisecond) = a /\ Z.quot (a * Millisecond) 1000000 = a.
Proof.
  unfold milliseconds_up, Millisecond. split.
  - replace (- (a * 1000000)) with ((- a) * 1000000) by lia.
    rewrite Z.div_mul by lia. lia.
  - apply Z.quot_mul. lia.
Qed.

(** C1, as the code computes it: for every result with [int64] durations and
    every use case the score is the sum of four independent contributions
    (download, latency, jitter, upload), each the first-match top-down scan
    of that use case's table of section 4.2, 0 when nothing matches, where
    latency and jitter enter the scan in whole milliseconds, the duration
    divided by 1,000,000 and truncated; the tables are descending.  For
    streaming download the scan gives 40 from 25 Mbps, 30 from 10, 20 from 5,
    10 from 2, otherwise 0.  A row "<= t ms" is therefore earned by every
    duration below [t + 1] milliseconds; the score is never below the table
    read on the duration itself, and equal to it when latency and jitter are
    whole milliseconds. *)
Theorem score_is_sum_of_table_scans (u : UseCase) (r : SpeedTestResult) :
  int64_durations r ->
  table_descending (spec_table u) = true /\
  score_of u r =
    scan_at_least (download_table (spec_table u)) (DownloadSpeed r)
    + scan_at_most (latency_table (spec_table u)) (Z.quot (Latency r) 1000000)
    + scan_at_most (jitter_table (spec_table u)) (Z.quot (Jitter r) 1000000)
    + scan_at_least (upload_table (spec_table u)) (UploadSpeed r) /\
  download_points UseStreaming r =
    (if f64_ge (DownloadSpeed r) f64_25 then 40
     else if f64_ge (DownloadSpeed r) f64_10 then 30
     else if f64_ge (DownloadSpeed r) f64_5 then 20
     else if f64_ge (DownloadSpeed r) f64_2 then 10
     else 0) /\
  (forall t, 0 <= t ->
     (Z.quot (Latency r) 1000000 <= t <-> Latency r < (t + 1) * Millisecond) /\
     (Z.quot (Jitter r) 1000000 <= t <-> Jitter r < (t + 1) * Millisecond)) /\
  table_score u r <= score_of u r /\
  (forall a b, Latency r = a * Millisecond -> Jitter r = b * Millisecond ->
               score_of u r = table_score u r).
Proof.
  intros [Hlat Hjit].
  assert (Hscore :
    score_of u r =
      scan_at_least (download_table (spec_table u)) (DownloadSpeed r)
      + scan_at_most (latency_table (spec_table u)) (Z.quot (Latency r) 1000000)
      + scan_at_most (jitter_table (spec_table u)) (Z.quot (Jitter r) 1000000)
      + scan_at_least (upload_table (spec_table u)) (UploadSpeed r)).
  { rewrite score_decomposition.
    unfold download_points, latency_points, jitter_points, upload_points.
    rewrite !Milliseconds_in_range by assumption. reflexivity. }
  destruct (table_descending_parts _ (spec_tables_descending u)) as (_ & Hl & Hj & _).
  split; [apply spec_tables_descending |].
  split; [exact Hscore |].
  split; [reflexivity |].
  split; [| split].
  - intros t Ht. split.
    + rewrite <- (Milliseconds_in_range _ Hlat). apply Milliseconds_at_most; assumption.
    + rewrite <- (Milliseconds_in_range _ Hjit). apply Milliseconds_at_most; assumption.
  - rewrite Hscore. unfold table_score. rewrite !scan_duration_rounds_up.
    pose proof (scan_at_most_antitone _ _ _ Hl (quot_below_rounded_up (Latency r))).
    pose proof (scan_at_most_antitone _ _ _ Hj (quot_below_rounded_up (Jitter r))).
    lia.
  - intros a b Ha Hb. rewrite Hscore. unfold table_score.
    rewrite !scan_duration_rounds_up, Ha, Hb.
    destruct (whole_milliseconds_rounded_up a) as [-> ->].
    destruct (whole_milliseconds_rounded_up b) as [-> ->]. reflexivity.
Qed.

Lemma score_is_sum_of_table_scans_witness :
  score_of UseStreaming half_millisecond_result = 40 + 30 + 0 + 10 /\
  (Z.quot 20500000 1000000 <= 20 <-> 20500000 < (20 + 1) * Millisecond).
Proof.
  assert (H : int64_durations half_millisecond_result)
    by (split; vm_compute; split; discriminate).
  destruct (score_is_sum_of_table_scans UseStreaming half_millisecond_result H)
    as (_ & Hscore & _ & Hrow & _).
  split; [exact Hscore | exact (proj1 (Hrow 20 ltac:(lia)))].
Defined.

(** C1 as stated fails: read on the duration, the tables of section 4.2 give
    a latency of 20.5 ms the streaming row "<= 50 ms" and the result 70
    points ("Good"); the code gives it the row "<= 20 ms" and 80 points
    ("Great"). *)
Lemma half_millisecond_beats_table :
  ~ (forall (u : UseCase) (r : SpeedTestResult),
        int64_durations r -> score_of u r = table_score u r) /\
  score_of UseStreaming half_millisecond_result = 80 /\
  table_score UseStreaming half_millisecond_result = 70 /\
  Streaming (calculateNetworkQuality half_millisecond_result) = "Great" /\
  getQualityLabel (table_score UseStreaming half_millisecond_result) = "Good".
Proof.
  split; [| repeat split; reflexivity].
  intros H.
  specialize (H UseStreaming half_millisecond_result
                ltac:(split; vm_compute; split; discriminate)).
  vm_compute in H. discriminate H.
Qed.

(** C6: for every result each of the three scores is an integer between 0
    and 100. *)
Theorem score_between_0_and_100 (u : UseCase) (r : SpeedTestResult) :
  0 <= score_of u r <= 100.
Proof.
  rewrite score_decomposition.
  destruct (table_descending_parts _ (spec_tables_descending u)) as (Hd & Hl & Hj & Hu).
  pose proof (scan_at_least_bounds _ (DownloadSpeed r) Hd).
  pose proof (scan_at_most_bounds _ (Milliseconds (Latency r)) Hl).
  pose proof (scan_at_most_bounds _ (Milliseconds (Jitter r)) Hj).
  pose proof (scan_at_least_bounds _ (UploadSpeed r) Hu).
  unfold download_points, latency_points, jitter_points, upload_points.
  destruct u; cbn [spec_table download_table latency_table jitter_table
    upload_table top_points] in *; lia.
Qed.

(** C5: for each use case, when one metric strictly worsens (latency or
    jitter grows, download or upload shrinks) and the others stay, the score
    does not grow. *)
Theorem score_monotone (u : UseCase) (r1 r2 : SpeedTestResult) :
  int64_durations r1 -> int64_durations r2 ->
  worsens r1 r2 ->
  score_of u r2 <= score_of u r1.
Proof.
  intros [Hl1 Hj1] [Hl2 Hj2] Hw.
  rewrite !score_decomposition.
  destruct (table_descending_parts _ (spec_tables_descending u)) as (Hd & Hl & Hj & Hu).
  unfold download_points, latency_points, jitter_points, upload_points.
  destruct Hw as [Hlt E1 E2 E3 | Hlt E1 E2 E3 | Hlt E1 E2 E3 | Hlt E1 E2 E3];
    rewrite E1, E2, E3.
  - pose proof (scan_at_most_antitone (latency_table (spec_table u))
      (Milliseconds (Latency r1)) (Milliseconds (Latency r2)) Hl
      (Milliseconds_mono _ _ Hl1 Hl2 ltac:(lia))). lia.
  - pose proof (scan_at_most_antitone (jitter_table (spec_table u))
      (Milliseconds (Jitter r1)) (Milliseconds (Jitter r2)) Hj
      (Milliseconds_mono _ _ Hj1 Hj2 ltac:(lia))). lia.
  - pose proof (scan_at_least_monotone (download_table (spec_table u)) _ _ Hd Hlt). lia.
  - pose proof (scan_at_least_monotone (upload_table (spec_table u)) _ _ Hu Hlt). lia.
Qed.

Lemma score_monotone_witness :
  worsens sample_result slow_sample /\
  score_of UseGaming slow_sample <= score_of UseGaming sample_result.
Proof.
  assert (Hw : worsens sample_result slow_sample)
    by (apply worse_latency; [vm_compute | | |]; reflexivity).
  split; [exact Hw |].
  apply (score_monotone UseGaming sample_result slow_sample);
    [split; split; intro H; discriminate H
    | split; split; intro H; discriminate H
    | exact Hw].
Defined.

(** ** The phases of [RunSpeedTest] *)

Ltac run_phases :=
  unfold calls, run, RunSpeedTest, WithSpinner, fail, bind, ret, emit;
  repeat match goal with
         | H : _ = (_, _) |- _ => rewrite H; clear H
         end;
  simpl.

(** C7: when a phase fails (server listing, server selection, an empty
    selection, latency probing, download, upload) [RunSpeedTest] returns the
    error naming that phase with a nil result and a nil assessment, and has
    made no library call beyond the failed one; an error never comes with a
    result or an assessment. *)
Theorem failed_phase_aborts (lib : Library) :
  (forall msg made,
      phase_fails lib msg made ->
      fst (run lib) = (None, None, Some msg) /\ calls lib = made) /\
  (forall result quality e,
      fst (run lib) = (result, quality, Some e) -> result = None /\ quality = None).
Proof.
  split.
  - intros msg made H. destruct H; run_phases; split; reflexivity.
  - intros result quality e.
    unfold run, RunSpeedTest, WithSpinner, fail, bind, ret, emit.
    destruct (FetchServers lib) as [servers [e1 |]]; simpl;
      [intros H; inversion H; auto |].
    destruct (FindServer lib servers) as [targets [e2 |]]; simpl;
      [intros H; inversion H; auto |].
    destruct targets as [| server rest]; simpl; [intros H; inversion H; auto |].
    destruct (TCPPing lib server) as [latencies [e3 |]]; simpl;
      [intros H; inversion H; auto |].
    destruct (DownloadTest lib _) as [dl [e4 |]]; simpl;
      [intros H; inversion H; auto |].
    destruct (UploadTest lib _) as [ul [e5 |]]; simpl;
      intros H; inversion H; auto.
Qed.

Lemma failed_phase_aborts_witness :
  phase_fails lib_offline "failed to fetch server list: dial tcp: no route to host"
    [EvFetchServers] /\
  fst (run lib_offline) =
    (None, None, Some "failed to fetch server list: dial tcp: no route to host") /\
  calls lib_offline = [EvFetchServers].
Proof.
  assert (H : phase_fails lib_offline
                "failed to fetch server list: dial tcp: no route to host"
                [EvFetchServers])
    by (apply (fetch_fails lib_offline [] "dial tcp: no route to host"); reflexivity).
  split; [exact H |].
  exact (proj1 (failed_phase_aborts lib_offline) _ _ H).
Defined.

(** *** An empty probe answer *)

Lemma aggregate_nil (fallback : ConvFallback) (server : Server) :
  aggregate fallback [] server = server.
Proof. reflexivity. Qed.

(** C10, as the code behaves: when the probe succeeds with no samples the
    latency phase ends without error, the download test is called next on
    the untouched server, and when download and upload succeed the result
    reports the latency and jitter the selected server already carried -
    0 and 0 when they were zero. *)
Theorem empty_probe_keeps_server_fields
  (lib : Library) (servers rest : list Server) (server : Server) :
  FetchServers lib = (servers, None) ->
  FindServer lib servers = (server :: rest, None) ->
  TCPPing lib server = ([], None) ->
  aggregate (conv_fallback lib) [] server = server /\
  (exists later, calls lib = [EvFetchServers; EvFindServer; EvTCPPing; EvDownloadTest] ++ later)%list /\
  (forall e, fst (run lib) <> (None, None, Some ("latency test failed: " ++ e)%string)) /\
  (forall dl ul,
      DownloadTest lib server = (dl, None) ->
      UploadTest lib (set_DLSpeed dl server) = (ul, None) ->
      exists result quality,
        fst (run lib) = (Some result, Some quality, None) /\
        Latency result = srvLatency server /\
        Jitter result = srvJitter server /\
        (srvLatency server = 0 -> srvJitter server = 0 ->
         Latency result = 0 /\ Jitter result = 0)).
Proof.
  intros Hfetch Hfind Hping. split; [reflexivity |].
  unfold calls, run, RunSpeedTest, WithSpinner, fail, bind, ret, emit.
  rewrite Hfetch; simpl. rewrite Hfind; simpl. rewrite Hping; simpl.
  rewrite !aggregate_nil.
  split; [| split].
  - destruct (DownloadTest lib server) as [dl [e4 |]]; simpl;
      [exists []; reflexivity |].
    destruct (UploadTest lib _) as [ul [e5 |]]; simpl; eexists; reflexivity.
  - intros e.
    destruct (DownloadTest lib server) as [dl [e4 |]]; simpl;
      [intros H; inversion H |].
    destruct (UploadTest lib _) as [ul [e5 |]]; simpl; intros H; inversion H.
  - intros dl ul Hdl Hul. rewrite Hdl; simpl. rewrite Hul; simpl.
    do 2 eexists. split; [reflexivity |]. simpl. auto.
Qed.

Lemma empty_probe_keeps_server_fields_witness :
  exists result quality,
    fst (run (lib_with fresh_server [])) = (Some result, Some quality, None) /\
    Latency result = 0 /\ Jitter result = 0.
Proof.
  destruct (empty_probe_keeps_server_fields (lib_with fresh_server [])
              [fresh_server] [] fresh_server eq_refl eq_refl eq_refl)
    as (_ & _ & _ & H).
  destruct (H f64_30 f64_10 eq_refl eq_refl) as (result & quality & Hrun & _ & _ & Hz).
  exists result, quality. split; [exact Hrun |]. apply Hz; reflexivity.
Defined.

(** C10 as stated fails: the selected server can already carry a latency (5
    ms here); the probe returns no samples, the run succeeds, and the result
    reports 5 ms, not 0. *)
Lemma empty_probe_reports_stale_latency :
  TCPPing (lib_with measured_server []) measured_server = ([], None) /\
  exists result quality,
    fst (run (lib_with measured_server [])) = (Some result, Some quality, None) /\
    Latency result = ms 5 /\ Latency result <> 0.
Proof.
  split; [reflexivity |].
  do 2 eexists. split; [reflexivity |]. split; [reflexivity |].
  intro H; discriminate H.
Qed.

(** ** The spinner harness *)

Lemma all_frames_snoc (ws : list Harness.Write) (n : nat) (message : string) :
  Harness.all_frames ws -> Harness.all_frames (ws ++ [Harness.Frame n message]).
Proof.
  unfold Harness.all_frames. intros H.
  rewrite forallb_app, H. reflexivity.
Qed.

Lemma invariant_init : Harness.invariant Harness.init.
Proof.
  unfold Harness.invariant; simpl. repeat split; intros; tauto.
Qed.

Lemma cleared_snoc (ws : list Harness.Write) :
  Harness.all_frames ws -> Harness.cleared (ws ++ [Harness.ClearLine]).
Proof. intros H. exists ws. split; [reflexivity | exact H]. Qed.

Lemma invariant_step (message : string) (s s' : Harness.State) :
  Harness.invariant s -> Harness.step message s s' -> Harness.invariant s'.
Proof.
  intros (Hchan & Hact & Hmain) Hstep.
  destruct Hstep;
    unfold Harness.invariant; simpl;
    repeat match goal with
           | H : Harness.main _ = _ |- _ => rewrite H in *
           | H : Harness.action _ = _ |- _ => rewrite H in *
           | H : Harness.render _ = _ |- _ => rewrite H in *
           | H : Harness.errChan _ = _ |- _ => rewrite H in *
           end; simpl in *.
  all: try (repeat split; try tauto; try (intros; tauto);
            destruct (Harness.action s); destruct (Harness.main s);
            intuition (try congruence; eauto using all_frames_snoc, cleared_snoc);
            fail).
  - (* action_returns *)
    split; [| split; [reflexivity |]].
    + intros e0 Hin. specialize (Hchan e0 Hin). congruence.
    + destruct (Harness.main s); intuition congruence.
Qed.

Lemma reachable_invariant (message : string) (s : Harness.State) :
  Harness.reachable message s -> Harness.invariant s.
Proof.
  induction 1 as [| s s' _ IH Hstep];
    [apply invariant_init | exact (invariant_step message s s' IH Hstep)].
Qed.

(** Once the caller has returned nothing is written any more. *)
Lemma returned_step (message : string) (s s' : Harness.State) (v : option error) :
  Harness.invariant s -> Harness.main s = Harness.MReturned v ->
  Harness.step message s s' ->
  Harness.main s' = Harness.MReturned v /\ Harness.output s' = Harness.output s.
Proof.
  intros (_ & _ & Hmain) Hret Hstep. rewrite Hret in Hmain.
  destruct Hmain as (_ & _ & Hrender).
  destruct Hstep; simpl; try congruence; auto.
Qed.

Lemma returned_steps (message : string) (s s' : Harness.State) (v : option error) :
  Harness.invariant s -> Harness.main s = Harness.MReturned v ->
  Harness.steps message s s' ->
  Harness.invariant s' /\ Harness.main s' = Harness.MReturned v /\
  Harness.output s' = Harness.output s.
Proof.
  intros Hinv Hret Hsteps.
  induction Hsteps as [| s s' s'' _ IH Hstep]; [auto |].
  destruct (IH Hinv Hret) as (Hinv' & Hret' & Hout).
  destruct (returned_step message s' s'' v Hinv' Hret' Hstep) as [Hret'' Hout'].
  split; [exact (invariant_step message s' s'' Hinv' Hstep) |].
  split; [exact Hret'' | congruence].
Qed.

(** C8: whenever [WithSpinner] has returned, with the action having
    succeeded or failed, the render loop has returned, the terminal has
    received frames only and then the clearing sequence as its last write,
    the value returned is exactly the one the action produced, and nothing is
    written afterwards. *)
Theorem spinner_cleared_before_return
  (message : string) (s : Harness.State) (v : option error) :
  Harness.reachable message s ->
  Harness.main s = Harness.MReturned v ->
  Harness.produced s = Some v /\
  Harness.render s = Harness.RReturned /\
  (exists frames_written,
      Harness.output s = (frames_written ++ [Harness.ClearLine])%list /\
      forallb Harness.is_frame frames_written = true) /\
  (forall s', Harness.steps message s s' -> Harness.output s' = Harness.output s).
Proof.
  intros Hreach Hret.
  pose proof (reachable_invariant message s Hreach) as Hinv.
  pose proof Hinv as (_ & _ & Hmain). rewrite Hret in Hmain.
  destruct Hmain as (Hprod & Hclear & Hrender).
  repeat split; trivial.
  intros s' Hsteps.
  apply (returned_steps message s s' v Hinv Hret Hsteps).
Qed.

(** Outside the returning paths: once the render loop has taken a signal
    it sits in its own [Stop], nobody receives on [s.stop], and the caller
    never returns. *)
Lemma interrupted_step (message : string) (s s' : Harness.State) :
  Harness.render s = Harness.RSigStop -> Harness.before_stop_taken s ->
  Harness.step message s s' ->
  Harness.render s' = Harness.RSigStop /\ Harness.before_stop_taken s'.
Proof.
  unfold Harness.before_stop_taken. intros Hr Hm Hstep.
  destruct Hstep; simpl;
    repeat match goal with
           | H : Harness.main _ = _ |- _ => rewrite H in *
           end; try congruence; try tauto; auto.
Qed.

Lemma interrupted_never_returns
  (message : string) (s s' : Harness.State) (v : option error) :
  Harness.reachable message s -> Harness.render s = Harness.RSigStop ->
  Harness.steps message s s' -> Harness.main s' <> Harness.MReturned v.
Proof.
  intros Hreach Hr Hsteps.
  assert (Hb : Harness.before_stop_taken s).
  { pose proof (reachable_invariant message s Hreach) as (_ & _ & Hmain).
    unfold Harness.before_stop_taken.
    destruct (Harness.main s); try exact I; intuition congruence. }
  assert (H : Harness.render s' = Harness.RSigStop /\ Harness.before_stop_taken s').
  { induction Hsteps as [| s s' s'' _ IH Hstep]; [auto |].
    destruct (IH Hreach Hr Hb) as [Hr' Hb'].
    exact (interrupted_step message s' s'' Hr' Hb' Hstep). }
  destruct H as [_ Hb']. unfold Harness.before_stop_taken in Hb'.
  intros E. rewrite E in Hb'. exact Hb'.
Qed.

Ltac fire R rule :=
  match type of R with
  | Harness.reachable ?m ?s =>
      let st := rule s in
      let R' := fresh "R" in
      pose proof (Harness.reach_step m s _ R st) as R';
      clear R; rename R' into R; cbv in R
  end.

Lemma one_frame_run_reachable (message : string) :
  Harness.reachable message (Harness.one_frame_run message).
Proof.
  pose proof (Harness.reach_init message) as R. unfold Harness.init in R.
  fire R ltac:(fun s => constr:(Harness.main_start message s eq_refl)).
  fire R ltac:(fun s => constr:(Harness.main_spawn message s eq_refl)).
  fire R ltac:(fun s => constr:(Harness.render_default message s eq_refl eq_refl eq_refl)).
  fire R ltac:(fun s => constr:(Harness.render_print message s eq_refl)).
  fire R ltac:(fun s => constr:(Harness.render_advance message s eq_refl)).
  fire R ltac:(fun s => constr:(Harness.render_wake message s eq_refl)).
  fire R ltac:(fun s => constr:(Harness.action_returns message s None eq_refl)).
  fire R ltac:(fun s => constr:(Harness.action_send message s None eq_refl eq_refl)).
  fire R ltac:(fun s => constr:(Harness.main_recv_err message s None [] eq_refl eq_refl)).
  fire R ltac:(fun s => constr:(Harness.stop_rendezvous message s None eq_refl eq_refl)).
  fire R ltac:(fun s => constr:(Harness.done_rendezvous message s None eq_refl eq_refl)).
  fire R ltac:(fun s => constr:(Harness.main_clear message s None eq_refl)).
  fire R ltac:(fun s => constr:(Harness.main_return message s None eq_refl)).
  exact R.
Qed.

Lemma spinner_cleared_before_return_witness :
  Harness.reachable "Testing download speed..."
    (Harness.one_frame_run "Testing download speed...") /\
  Harness.produced (Harness.one_frame_run "Testing download speed...") = Some None /\
  Harness.render (Harness.one_frame_run "Testing download speed...") = Harness.RReturned.
Proof.
  split; [apply one_frame_run_reachable |].
  destruct (spinner_cleared_before_return "Testing download speed..."
              (Harness.one_frame_run "Testing download speed...") None
              (one_frame_run_reachable "Testing download speed...") eq_refl)
    as (Hp & Hr & _).
  split; [exact Hp | exact Hr].
Defined.

(** ** Floats: digit counts, shifting and rounding *)

Lemma digits2_pos_size (p : positive) : digits2_pos p = Pos.size p.
Proof. induction p; simpl; congruence. Qed.

Lemma digits2_pos_bounds (p : positive) :
  2 ^ (Zpos (digits2_pos p) - 1) <= Zpos p < 2 ^ Zpos (digits2_pos p).
Proof.
  rewrite digits2_pos_size.
  pose proof (Pos.size_gt p) as Hgt. pose proof (Pos.size_le p) as Hle.
  apply Pos2Z.pos_lt_pos in Hgt. apply Pos2Z.pos_le_pos in Hle.
  rewrite Pos2Z.inj_pow in Hgt, Hle.
  assert (Hx : Zpos p~0 = 2 * Zpos p) by reflexivity.
  split; [| exact Hgt].
  replace (Zpos (Pos.size p)) with (Z.succ (Zpos (Pos.size p) - 1)) in Hle by lia.
  rewrite Z.pow_succ_r in Hle by lia. lia.
Qed.

Lemma Zdigits2_nonneg (z : Z) : 0 <= Zdigits2 z.
Proof. destruct z; simpl; lia. Qed.

Lemma Zdigits2_upper (z k : Z) : 0 <= z < 2 ^ k -> 0 <= k -> Zdigits2 z <= k.
Proof.
  intros [Hz Hlt] Hk. destruct z as [| p | p]; simpl; [lia | | lia].
  pose proof (digits2_pos_bounds p) as [Hlo _].
  assert (H : 2 ^ (Zpos (digits2_pos p) - 1) < 2 ^ k) by lia.
  apply Z.pow_lt_mono_r_iff in H; lia.
Qed.

Lemma Zdigits2_lower (z k : Z) : 2 ^ k <= z -> 0 <= k -> k + 1 <= Zdigits2 z.
Proof.
  intros Hle Hk. assert (0 < 2 ^ k) by (apply Z.pow_pos_nonneg; lia).
  destruct z as [| p | p]; simpl; [lia | | lia].
  pose proof (digits2_pos_bounds p) as [_ Hhi].
  assert (H' : 2 ^ k < 2 ^ Zpos (digits2_pos p)) by lia.
  apply Z.pow_lt_mono_r_iff in H'; lia.
Qed.

Lemma Zdigits2_lt_pow (z : Z) : 0 <= z -> z < 2 ^ Zdigits2 z.
Proof.
  intros Hz. destruct z as [| p | p]; simpl; [lia | | lia].
  apply digits2_pos_bounds.
Qed.

Lemma Zdigits2_ge_pow (z : Z) : 0 < z -> 2 ^ (Zdigits2 z - 1) <= z.
Proof.
  intros Hz. destruct z as [| p | p]; simpl; [lia | | lia].
  apply digits2_pos_bounds.
Qed.

Lemma Zdigits2_mono (a b : Z) : 0 <= a <= b -> Zdigits2 a <= Zdigits2 b.
Proof.
  intros [Ha Hab]. apply Zdigits2_upper; [| apply Zdigits2_nonneg].
  pose proof (Zdigits2_lt_pow b ltac:(lia)). lia.
Qed.

Lemma Zdigits2_succ (m m' : Z) : 0 <= m <= m' -> m' <= m + 1 -> Zdigits2 m' <= Zdigits2 m + 1.
Proof.
  intros [Hm Hle] Hle'. pose proof (Zdigits2_nonneg m).
  apply Zdigits2_upper; [| lia].
  pose proof (Zdigits2_lt_pow m Hm).
  rewrite Z.pow_add_r by lia. lia.
Qed.

Lemma Zdigits2_div_pow (m k : Z) :
  0 <= m -> 0 <= k -> Zdigits2 (m / 2 ^ k) <= Z.max (Zdigits2 m - k) 0.
Proof.
  intros Hm Hk. assert (Hp : 0 < 2 ^ k) by (apply Z.pow_pos_nonneg; lia).
  pose proof (Zdigits2_lt_pow m Hm) as Hlt. pose proof (Zdigits2_nonneg m) as Hd.
  destruct (Z_le_gt_dec k (Zdigits2 m)) as [Hle | Hgt].
  - apply Zdigits2_upper; [| lia]. split; [apply Z.div_pos; lia |].
    apply Z.div_lt_upper_bound; [lia |].
    rewrite <- Z.pow_add_r by lia.
    replace (k + Z.max (Zdigits2 m - k) 0) with (Zdigits2 m) by lia. exact Hlt.
  - rewrite Z.div_small; [simpl; lia |]. split; [lia |].
    apply Z.lt_le_trans with (2 ^ Zdigits2 m); [exact Hlt |].
    apply Z.pow_le_mono_r; lia.
Qed.

Lemma Zdigits2_div_pow_lower (m k : Z) :
  0 < m -> 0 <= k < Zdigits2 m -> Zdigits2 m - k <= Zdigits2 (m / 2 ^ k).
Proof.
  intros Hm Hk. assert (Hp : 0 < 2 ^ k) by (apply Z.pow_pos_nonneg; lia).
  pose proof (Zdigits2_ge_pow m Hm) as Hge.
  assert (H : 2 ^ (Zdigits2 m - 1 - k) <= m / 2 ^ k).
  { apply Z.div_le_lower_bound; [lia |].
    rewrite <- Z.pow_add_r by lia.
    replace (k + (Zdigits2 m - 1 - k)) with (Zdigits2 m - 1) by lia. exact Hge. }
  apply Zdigits2_lower in H; lia.
Qed.

(** *** Shifting and rounding *)

Lemma shr_1_m (mrs : shr_record) :
  0 <= shr_m mrs -> shr_m (shr_1 mrs) = shr_m mrs / 2.
Proof.
  destruct mrs as [m r s]; simpl. intros Hm.
  destruct m as [| [p | p |] | p]; simpl; try reflexivity; try lia.
  - rewrite Pos2Z.inj_xI. apply Z.div_unique with 1; lia.
  - rewrite Pos2Z.inj_xO. apply Z.div_unique with 0; lia.
Qed.

Lemma pow2_xO (p : positive) : 2 ^ Zpos p~0 = 2 ^ Zpos p * 2 ^ Zpos p.
Proof.
  replace (Zpos p~0) with (Zpos p + Zpos p) by lia.
  apply Z.pow_add_r; lia.
Qed.

Lemma pow2_xI (p : positive) : 2 ^ Zpos p~1 = 2 * (2 ^ Zpos p * 2 ^ Zpos p).
Proof.
  replace (Zpos p~1) with (1 + (Zpos p + Zpos p)) by lia.
  rewrite !Z.pow_add_r by lia. reflexivity.
Qed.

Lemma iter_shr_1_m (p : positive) (mrs : shr_record) :
  0 <= shr_m mrs ->
  shr_m (iter_pos shr_1 p mrs) = shr_m mrs / 2 ^ Zpos p.
Proof.
  revert mrs. induction p as [p IH | p IH |]; intros mrs Hm; simpl iter_pos.
  - assert (Hp : 0 < 2 ^ Zpos p) by (apply Z.pow_pos_nonneg; lia).
    assert (H1 : 0 <= shr_m (shr_1 mrs))
      by (rewrite shr_1_m by assumption; apply Z.div_pos; lia).
    assert (H2 : 0 <= shr_m (iter_pos shr_1 p (shr_1 mrs)))
      by (rewrite IH by assumption; apply Z.div_pos; lia).
    rewrite IH, IH, shr_1_m by assumption.
    rewrite pow2_xI, !Z.div_div by lia. reflexivity.
  - assert (Hp : 0 < 2 ^ Zpos p) by (apply Z.pow_pos_nonneg; lia).
    assert (H2 : 0 <= shr_m (iter_pos shr_1 p mrs))
      by (rewrite IH by assumption; apply Z.div_pos; lia).
    rewrite IH, IH by assumption.
    rewrite pow2_xO, !Z.div_div by lia. reflexivity.
  - rewrite shr_1_m by assumption. reflexivity.
Qed.

Lemma shr_spec (mrs : shr_record) (e k : Z) :
  0 <= shr_m mrs ->
  shr_m (fst (shr mrs e k)) = shr_m mrs / 2 ^ Z.max k 0 /\
  snd (shr mrs e k) = e + Z.max k 0.
Proof.
  intros Hm. destruct k as [| p | p]; simpl.
  - rewrite Z.div_1_r. lia.
  - rewrite iter_shr_1_m by assumption. split; reflexivity.
  - rewrite Z.div_1_r. lia.
Qed.

Lemma shr_record_of_loc_m (m : Z) (l : location) : shr_m (shr_record_of_loc m l) = m.
Proof. destruct l as [| []]; reflexivity. Qed.

Lemma round_nearest_even_bounds (m : Z) (l : location) :
  m <= round_nearest_even m l <= m + 1.
Proof.
  destruct l as [| []]; simpl; try lia. destruct (Z.even m); lia.
Qed.

Lemma fexp64 (e : Z) : fexp 53 1024 e = Z.max (e - 53) (-1074).
Proof. reflexivity. Qed.

(** What [binary_round_aux] does to a non-negative mantissa: the sign is
    kept, the result is never NaN, a finite result has at most 53 digits and
    its magnitude exponent grew by at most one. *)
Lemma round_aux_upper (sx : bool) (mx ex : Z) (lx : location) :
  0 <= mx ->
  binary_round_aux 53 1024 sx mx ex lx = S754_zero sx \/
  (exists m e,
      binary_round_aux 53 1024 sx mx ex lx = S754_finite sx m e /\
      Zpos (digits2_pos m) <= 53 /\
      Zpos (digits2_pos m) + e <= Z.max (Zdigits2 mx + ex) (-1074) + 1) \/
  (binary_round_aux 53 1024 sx mx ex lx = S754_infinity sx /\
   972 < Z.max (Zdigits2 mx + ex) (-1074) + 1).
Proof.
  intros Hmx. unfold binary_round_aux, shr_fexp.
  set (k1 := fexp 53 1024 (Zdigits2 mx + ex) - ex).
  pose proof (shr_spec (shr_record_of_loc mx lx) ex k1) as Hs1.
  rewrite shr_record_of_loc_m in Hs1. specialize (Hs1 Hmx).
  destruct (shr (shr_record_of_loc mx lx) ex k1) as [mrs1 e1]. simpl in Hs1.
  destruct Hs1 as [Hm1 He1].
  set (m1' := round_nearest_even (shr_m mrs1) (loc_of_shr_record mrs1)).
  pose proof (round_nearest_even_bounds (shr_m mrs1) (loc_of_shr_record mrs1)) as Hr.
  fold m1' in Hr.
  assert (Hp1 : 0 < 2 ^ Z.max k1 0) by (apply Z.pow_pos_nonneg; lia).
  assert (Hm1pos : 0 <= shr_m mrs1) by (rewrite Hm1; apply Z.div_pos; lia).
  set (k2 := fexp 53 1024 (Zdigits2 m1' + e1) - e1).
  pose proof (shr_spec (shr_record_of_loc m1' loc_Exact) e1 k2) as Hs2.
  rewrite shr_record_of_loc_m in Hs2. specialize (Hs2 ltac:(lia)).
  destruct (shr (shr_record_of_loc m1' loc_Exact) e1 k2) as [mrs2 e2]. simpl in Hs2.
  destruct Hs2 as [Hm2 He2].
  assert (Hp2 : 0 < 2 ^ Z.max k2 0) by (apply Z.pow_pos_nonneg; lia).
  assert (Hm2pos : 0 <= shr_m mrs2) by (rewrite Hm2; apply Z.div_pos; lia).
  (* digit counts *)
  pose proof (Zdigits2_div_pow mx (Z.max k1 0) Hmx ltac:(lia)) as Hd1.
  rewrite <- Hm1 in Hd1.
  pose proof (Zdigits2_succ (shr_m mrs1) m1' ltac:(lia) ltac:(lia)) as Hd1'.
  pose proof (Zdigits2_div_pow m1' (Z.max k2 0) ltac:(lia) ltac:(lia)) as Hd2.
  rewrite <- Hm2 in Hd2.
  pose proof (Zdigits2_nonneg mx). pose proof (Zdigits2_nonneg m1').
  pose proof (Zdigits2_nonneg (shr_m mrs1)).
  unfold k1, k2 in *. rewrite !fexp64 in *.
  destruct (shr_m mrs2) as [| m | m] eqn:Em2; [left; reflexivity | right | lia].
  change (Zdigits2 (Zpos m)) with (Zpos (digits2_pos m)) in Hd2.
  assert (Hdig : Zpos (digits2_pos m) <= 53) by lia.
  assert (Hmag : Zpos (digits2_pos m) + e2 <= Z.max (Zdigits2 mx + ex) (-1074) + 1) by lia.
  destruct (e2 <=? 1024 - 53) eqn:Ee.
  - left. exists m, e2. auto.
  - right. split; [reflexivity |]. apply Z.leb_gt in Ee. lia.
Qed.

(** A positive mantissa in the normal range does not lose magnitude. *)
Lemma round_aux_lower (sx : bool) (mx ex : Z) (lx : location) :
  0 < mx -> -1021 <= Zdigits2 mx + ex ->
  binary_round_aux 53 1024 sx mx ex lx = S754_infinity sx \/
  exists m e,
    binary_round_aux 53 1024 sx mx ex lx = S754_finite sx m e /\
    Zdigits2 mx + ex <= Zpos (digits2_pos m) + e.
Proof.
  intros Hmx Hnormal. unfold binary_round_aux, shr_fexp.
  set (k1 := fexp 53 1024 (Zdigits2 mx + ex) - ex).
  pose proof (shr_spec (shr_record_of_loc mx lx) ex k1) as Hs1.
  rewrite shr_record_of_loc_m in Hs1. specialize (Hs1 ltac:(lia)).
  destruct (shr (shr_record_of_loc mx lx) ex k1) as [mrs1 e1]. simpl in Hs1.
  destruct Hs1 as [Hm1 He1].
  set (m1' := round_nearest_even (shr_m mrs1) (loc_of_shr_record mrs1)).
  pose proof (round_nearest_even_bounds (shr_m mrs1) (loc_of_shr_record mrs1)) as Hr.
  fold m1' in Hr.
  assert (Hp1 : 0 < 2 ^ Z.max k1 0) by (apply Z.pow_pos_nonneg; lia).
  assert (Hm1pos : 0 <= shr_m mrs1) by (rewrite Hm1; apply Z.div_pos; lia).
  pose proof (Zdigits2_lower mx 0 ltac:(simpl; lia) ltac:(lia)) as Hdpos.
  assert (Hk1 : 0 <= Z.max k1 0 < Zdigits2 mx)
    by (unfold k1; rewrite fexp64; lia).
  pose proof (Zdigits2_div_pow_lower mx (Z.max k1 0) Hmx Hk1) as Hd1.
  rewrite <- Hm1 in Hd1.
  pose proof (Zdigits2_mono (shr_m mrs1) m1' ltac:(lia)) as Hd1'.
  set (k2 := fexp 53 1024 (Zdigits2 m1' + e1) - e1).
  pose proof (shr_spec (shr_record_of_loc m1' loc_Exact) e1 k2) as Hs2.
  rewrite shr_record_of_loc_m in Hs2. specialize (Hs2 ltac:(lia)).
  destruct (shr (shr_record_of_loc m1' loc_Exact) e1 k2) as [mrs2 e2]. simpl in Hs2.
  destruct Hs2 as [Hm2 He2].
  assert (Hm1'pos : 0 < m1').
  { destruct (Z.eq_dec m1' 0) as [E | E]; [| lia].
    rewrite E in Hd1'. simpl in Hd1'. lia. }
  assert (Hk2 : 0 <= Z.max k2 0 < Zdigits2 m1')
    by (unfold k1, k2 in *; rewrite !fexp64 in *; lia).
  pose proof (Zdigits2_div_pow_lower m1' (Z.max k2 0) Hm1'pos Hk2) as Hd2.
  rewrite <- Hm2 in Hd2.
  unfold k1, k2 in *. rewrite !fexp64 in *.
  destruct (shr_m mrs2) as [| m | m] eqn:Em2; [simpl in Hd2; lia | | simpl in Hd2].
  - change (Zdigits2 (Zpos m)) with (Zpos (digits2_pos m)) in Hd2.
    destruct (e2 <=? 1024 - 53); [right | left; reflexivity].
    exists m, e2. split; [reflexivity | lia].
  - assert (0 <= m1' / 2 ^ Z.max (Z.max (Zdigits2 m1' + e1 - 53) (-1074) - e1) 0)
      by (apply Z.div_pos; [lia | apply Z.pow_pos_nonneg; lia]).
    lia.
Qed.

(** *** Conversion, division and square root on non-negative values *)

Lemma digits2_pos_iter_xO (p d : positive) :
  digits2_pos (Pos.iter xO p d) = (digits2_pos p + d)%positive.
Proof.
  induction d as [| d IH] using Pos.peano_ind.
  - simpl. lia.
  - rewrite Pos.iter_succ. simpl. rewrite IH. lia.
Qed.

Lemma shl_align_mag (mx : positive) (ex ex' : Z) :
  Zpos (digits2_pos (fst (shl_align mx ex ex'))) + snd (shl_align mx ex ex')
  = Zpos (digits2_pos mx) + ex.
Proof.
  unfold shl_align. destruct (ex' - ex) as [| d | d] eqn:E; cbn [fst snd]; try reflexivity.
  rewrite digits2_pos_iter_xO. lia.
Qed.

Lemma float64_of_int_nonneg (v : Z) :
  0 <= v < 2 ^ 63 -> nonneg_below 64 (float64_of_int v).
Proof.
  intros [Hv Hlt]. unfold float64_of_int, binary_normalize.
  destruct v as [| p | p]; [left; reflexivity | | lia].
  unfold binary_round.
  pose proof (shl_align_mag p 0 (fexp 53 1024 (Zpos (digits2_pos p) + 0))) as Hmag.
  destruct (shl_align p 0 (fexp 53 1024 (Zpos (digits2_pos p) + 0))) as [mz ez].
  cbn [fst snd] in Hmag.
  pose proof (Zdigits2_upper (Zpos p) 63 ltac:(lia) ltac:(lia)) as Hd. cbn [Zdigits2] in Hd.
  destruct (round_aux_upper false (Zpos mz) ez loc_Exact ltac:(lia))
    as [H | [(m & e & H & Hdig & Hm) | [_ Hinf]]].
  - left. exact H.
  - right. exists m, e. cbn [Zdigits2] in Hm. repeat split; trivial. lia.
  - cbn [Zdigits2] in Hinf. lia.
Qed.

Lemma float64_of_int_pos (n : Z) :
  1 <= n < 2 ^ 63 ->
  exists m e, float64_of_int n = S754_finite false m e /\
              1 <= Zpos (digits2_pos m) + e.
Proof.
  intros [Hn Hlt]. unfold float64_of_int, binary_normalize.
  destruct n as [| p | p]; [lia | | lia].
  unfold binary_round.
  pose proof (shl_align_mag p 0 (fexp 53 1024 (Zpos (digits2_pos p) + 0))) as Hmag.
  destruct (shl_align p 0 (fexp 53 1024 (Zpos (digits2_pos p) + 0))) as [mz ez].
  cbn [fst snd] in Hmag.
  pose proof (Zdigits2_upper (Zpos p) 63 ltac:(lia) ltac:(lia)) as Hd. cbn [Zdigits2] in Hd.
  destruct (round_aux_lower false (Zpos mz) ez loc_Exact ltac:(lia) ltac:(cbn [Zdigits2]; lia))
    as [H | (m & e & H & Hm)].
  - destruct (round_aux_upper false (Zpos mz) ez loc_Exact ltac:(lia))
      as [H' | [(m & e & H' & _) | [_ Hinf]]];
      [congruence | congruence | cbn [Zdigits2] in Hinf; lia].
  - exists m, e. split; [exact H |]. cbn [Zdigits2] in Hm. lia.
Qed.

Lemma Zdigits2_shift (m s : Z) :
  0 <= m -> 0 <= s -> Zdigits2 (m * 2 ^ s) <= Zdigits2 m + s.
Proof.
  intros Hm Hs. pose proof (Zdigits2_nonneg m).
  assert (0 < 2 ^ s) by (apply Z.pow_pos_nonneg; lia).
  apply Zdigits2_upper; [| lia].
  rewrite Z.pow_add_r by lia.
  pose proof (Zdigits2_lt_pow m Hm). nia.
Qed.

Lemma div_core_bound (mx my : positive) (ex ey : Z) :
  let '(q, e', _) := SFdiv_core_binary 53 1024 (Zpos mx) ex (Zpos my) ey in
  0 <= q /\
  Zdigits2 q + e' <=
    Z.max (Zpos (digits2_pos mx) + ex - (Zpos (digits2_pos my) + ey) + 1) (-1074).
Proof.
  unfold SFdiv_core_binary.
  change (Zdigits2 (Zpos mx)) with (Zpos (digits2_pos mx)).
  change (Zdigits2 (Zpos my)) with (Zpos (digits2_pos my)).
  set (d1 := Zpos (digits2_pos mx)). set (d2 := Zpos (digits2_pos my)).
  rewrite fexp64.
  set (e' := Z.min (Z.max (d1 + ex - (d2 + ey) - 53) (-1074)) (ex - ey)).
  set (s := ex - ey - e').
  set (m' := match s with Z0 => Zpos mx | Zpos _ => Z.shiftl (Zpos mx) s | Zneg _ => 0 end).
  assert (Hs : 0 <= s) by (unfold s, e'; lia).
  assert (Hm' : 0 <= m' /\ Zdigits2 m' <= d1 + s).
  { unfold m'. destruct s as [| p | p] eqn:Es; [simpl; fold d1; lia | | lia].
    rewrite Z.shiftl_mul_pow2 by lia.
    assert (0 < 2 ^ Zpos p) by (apply Z.pow_pos_nonneg; lia).
    split; [nia |]. apply (Zdigits2_shift (Zpos mx) (Zpos p)); lia. }
  destruct Hm' as [Hm'0 Hm'd].
  pose proof (Z_div_mod m' (Zpos my) ltac:(lia)) as Hdm.
  assert (Hq : fst (Z.div_eucl m' (Zpos my)) = m' / Zpos my) by reflexivity.
  destruct (Z.div_eucl m' (Zpos my)) as [q r]. simpl in Hq. subst q.
  assert (Hq0 : 0 <= m' / Zpos my) by (apply Z.div_pos; lia).
  split; [exact Hq0 |].
  pose proof (digits2_pos_bounds my) as [Hlo _]. fold d2 in Hlo.
  assert (Hp : 0 < 2 ^ (d2 - 1)) by (apply Z.pow_pos_nonneg; unfold d2; lia).
  pose proof (Z.div_le_compat_l m' (2 ^ (d2 - 1)) (Zpos my) Hm'0 ltac:(lia)) as Hle.
  pose proof (Zdigits2_mono _ _ (conj Hq0 Hle)) as Hmono.
  pose proof (Zdigits2_div_pow m' (d2 - 1) Hm'0 ltac:(unfold d2; lia)) as Hdiv.
  unfold s, e' in *. lia.
Qed.

Lemma f64_div_nonneg (x y : float64) (M : Z) :
  nonneg_below M x -> M <= 900 ->
  (exists m e, y = S754_finite false m e /\ 1 <= Zpos (digits2_pos m) + e) ->
  nonneg_below (Z.max M (-1074) + 1) (f64_div x y).
Proof.
  intros Hx HM (my & ey & -> & Hy).
  destruct Hx as [-> | (mx & ex & -> & Hdx & Hmx)]; [left; reflexivity |].
  unfold f64_div, SFdiv.
  pose proof (div_core_bound mx my ex ey) as Hcore.
  destruct (SFdiv_core_binary 53 1024 (Zpos mx) ex (Zpos my) ey) as [[q e'] l].
  destruct Hcore as [Hq Hmag]. simpl xorb.
  destruct (round_aux_upper false q e' l Hq)
    as [H | [(m & e & H & Hdig & Hm) | [_ Hinf]]].
  - left. exact H.
  - right. exists m, e. repeat split; trivial. lia.
  - lia.
Qed.

Lemma sqrt_core_bound (mx : positive) (ex : Z) :
  let '(q, e', _) := SFsqrt_core_binary 53 1024 (Zpos mx) ex in
  0 <= q /\ Zdigits2 q + e' <= (Zpos (digits2_pos mx) + ex + 1) / 2.
Proof.
  unfold SFsqrt_core_binary.
  change (Zdigits2 (Zpos mx)) with (Zpos (digits2_pos mx)).
  set (d := Zpos (digits2_pos mx)).
  rewrite fexp64, !Z.div2_div.
  set (e' := Z.min (Z.max ((d + ex + 1) / 2 - 53) (-1074)) (ex / 2)).
  set (s := ex - 2 * e').
  set (m' := match s with Z0 => Zpos mx | Zpos _ => Z.shiftl (Zpos mx) s | Zneg _ => 0 end).
  assert (Hs : 0 <= s).
  { unfold s, e'. pose proof (Z.div_mod ex 2 ltac:(lia)).
    pose proof (Z.mod_pos_bound ex 2 ltac:(lia)). lia. }
  assert (Hm' : 0 <= m' /\ Zdigits2 m' <= d + s).
  { unfold m'. destruct s as [| p | p] eqn:Es; [simpl; fold d; lia | | lia].
    rewrite Z.shiftl_mul_pow2 by lia.
    assert (0 < 2 ^ Zpos p) by (apply Z.pow_pos_nonneg; lia).
    split; [nia |]. apply (Zdigits2_shift (Zpos mx) (Zpos p)); lia. }
  destruct Hm' as [Hm'0 Hm'd].
  pose proof (Z.sqrtrem_spec m' Hm'0) as Hsq.
  destruct (Z.sqrtrem m') as [q r]. destruct Hsq as [Hsq Hr].
  assert (Hq0 : 0 <= q) by lia.
  split; [exact Hq0 |].
  set (D := (d + s + 1) / 2).
  assert (HD : d + s <= 2 * D /\ 0 <= D).
  { unfold D. pose proof (Z.div_mod (d + s + 1) 2 ltac:(lia)).
    pose proof (Z.mod_pos_bound (d + s + 1) 2 ltac:(lia)). unfold d in *. lia. }
  assert (Hqlt : q < 2 ^ D).
  { pose proof (Zdigits2_lt_pow m' Hm'0) as Hlt.
    assert (Hpow : 2 ^ Zdigits2 m' <= 2 ^ (2 * D))
      by (apply Z.pow_le_mono_r; lia).
    replace (2 * D) with (D + D) in Hpow by lia.
    rewrite Z.pow_add_r in Hpow by lia.
    assert (0 < 2 ^ D) by (apply Z.pow_pos_nonneg; lia). nia. }
  pose proof (Zdigits2_upper q D ltac:(lia) ltac:(lia)) as Hdq.
  assert (HDe : D + e' = (d + ex + 1) / 2).
  { unfold D, s. replace (d + (ex - 2 * e') + 1) with (d + ex + 1 + (- e') * 2) by lia.
    rewrite Z.div_add by lia. lia. }
  lia.
Qed.

Lemma f64_sqrt_nonneg (x : float64) (M : Z) :
  nonneg_below M x -> M <= 900 ->
  nonneg_below (Z.max ((M + 1) / 2) (-1074) + 1) (f64_sqrt x).
Proof.
  intros [-> | (mx & ex & -> & Hdx & Hmx)] HM; [left; reflexivity |].
  unfold f64_sqrt, SFsqrt.
  pose proof (sqrt_core_bound mx ex) as Hcore.
  destruct (SFsqrt_core_binary 53 1024 (Zpos mx) ex) as [[q e'] l].
  destruct Hcore as [Hq Hmag].
  assert (Hhalf : (Zpos (digits2_pos mx) + ex + 1) / 2 <= (M + 1) / 2)
    by (apply Z.div_le_mono; lia).
  assert (HM2 : (M + 1) / 2 <= 900).
  { apply Z.div_le_upper_bound; lia. }
  destruct (round_aux_upper false q e' l Hq)
    as [H | [(m & e & H & Hdig & Hm) | [_ Hinf]]].
  - left. exact H.
  - right. exists m, e. repeat split; trivial. lia.
  - lia.
Qed.

Lemma int64_of_float64_nonneg (fallback : ConvFallback) (f : float64) (M : Z) :
  nonneg_below M f -> M <= 53 ->
  0 <= int64_of_float64 fallback f < 2 ^ 53.
Proof.
  intros [-> | (m & e & -> & Hdig & Hmag)] HM; [simpl; lia |].
  unfold int64_of_float64.
  pose proof (digits2_pos_bounds m) as [_ Hlt].
  assert (Hz : 0 <= (if 0 <=? e then Zpos m * 2 ^ e else Zpos m / 2 ^ (- e)) < 2 ^ 53).
  { destruct (Z.leb_spec 0 e).
    - assert (0 < 2 ^ e) by (apply Z.pow_pos_nonneg; lia).
      split; [nia |].
      apply Z.lt_le_trans with (2 ^ (Zpos (digits2_pos m) + e)).
      + rewrite Z.pow_add_r by lia. nia.
      + apply Z.pow_le_mono_r; lia.
    - assert (0 < 2 ^ (- e)) by (apply Z.pow_pos_nonneg; lia).
      split; [apply Z.div_pos; lia |].
      apply Z.le_lt_trans with (Zpos m).
      + apply Z.div_le_upper_bound; [lia | nia].
      + apply Z.lt_le_trans with (2 ^ Zpos (digits2_pos m)); [exact Hlt |].
        apply Z.pow_le_mono_r; lia. }
  set (z := if 0 <=? e then Zpos m * 2 ^ e else Zpos m / 2 ^ (- e)) in *.
  assert (Hin : (Int64.min_int <=? z) && (z <=? Int64.max_int) = true).
  { unfold Int64.min_int, Int64.max_int. apply andb_true_intro.
    split; apply Z.leb_le; lia. }
  rewrite Hin. exact Hz.
Qed.

Lemma jitter_conversion (fallback : ConvFallback) (v n : Z) :
  0 <= v < 2 ^ 63 -> 1 <= n < 2 ^ 63 ->
  0 <= int64_of_float64 fallback
         (f64_sqrt (f64_div (float64_of_int v) (float64_of_int n))) < 2 ^ 53 /\
  (v = 0 ->
   int64_of_float64 fallback
     (f64_sqrt (f64_div (float64_of_int v) (float64_of_int n))) = 0).
Proof.
  intros Hv Hn.
  pose proof (float64_of_int_nonneg v Hv) as Hx.
  pose proof (float64_of_int_pos n Hn) as Hy.
  pose proof (f64_div_nonneg _ _ 64 Hx ltac:(lia) Hy) as Hq.
  pose proof (f64_sqrt_nonneg _ _ Hq ltac:(lia)) as Hr.
  split.
  - apply (int64_of_float64_nonneg fallback _ _ Hr). vm_compute. discriminate.
  - intros ->. destruct Hy as (m & e & -> & _). reflexivity.
Qed.

(** ** The latency phase *)

Lemma wrap_range (z : Z) : Int64.in_range (Int64.wrap z).
Proof.
  unfold Int64.in_range, Int64.wrap, Int64.min_int, Int64.max_int.
  pose proof (Z.mod_pos_bound (z + 2 ^ 63) (2 ^ 64) ltac:(lia)). lia.
Qed.

Lemma wrap_small (z : Z) : - 2 ^ 63 <= z < 2 ^ 63 -> Int64.wrap z = z.
Proof.
  intros H. apply wrap_in_range. unfold Int64.in_range, Int64.min_int, Int64.max_int. lia.
Qed.

Lemma len_small (l : list Z) :
  Z.of_nat (List.length l) < 2 ^ 63 -> len l = Z.of_nat (List.length l).
Proof. intros H. unfold len. apply wrap_small. lia. Qed.

Lemma wrap_add_wrap_l (a b : Z) : Int64.wrap (Int64.wrap a + b) = Int64.wrap (a + b).
Proof.
  unfold Int64.wrap. f_equal.
  replace ((a + 2 ^ 63) mod 2 ^ 64 - 2 ^ 63 + b + 2 ^ 63)
    with ((a + 2 ^ 63) mod 2 ^ 64 + b) by lia.
  rewrite Z.add_mod_idemp_l by lia. f_equal. lia.
Qed.

(** The sum the loop leaves is the sum of the samples, wrapped once. *)
Lemma sum_loop_wrap (l : list Z) : sum_loop l = Int64.wrap (total l).
Proof.
  unfold sum_loop.
  assert (H : forall acc,
             fold_left (fun sum lat => Int64.add sum lat) l (Int64.wrap acc)
             = Int64.wrap (acc + total l)).
  { induction l as [| x l IH]; intros acc.
    - simpl. rewrite Z.add_0_r. reflexivity.
    - cbn [fold_left]. unfold Int64.add at 2. rewrite wrap_add_wrap_l, IH.
      change (total (x :: l)) with (x + total l). f_equal. lia. }
  specialize (H 0). rewrite Z.add_0_l in H. rewrite <- H. reflexivity.
Qed.

Lemma total_upper (hi : Z) (l : list Z) :
  Forall (fun x => x <= hi) l -> total l <= Z.of_nat (List.length l) * hi.
Proof.
  induction 1 as [| x l Hx _ IH]; [simpl; lia |].
  change (total (x :: l)) with (x + total l).
  rewrite length_cons, Nat2Z.inj_succ. lia.
Qed.

(** Truncated division keeps a quotient between the bounds of the terms. *)
Lemma quot_between (t n lo hi : Z) :
  0 < n -> n * lo <= t <= n * hi -> lo <= Z.quot t n <= hi.
Proof.
  intros Hn [Hlo Hhi].
  destruct (Z_lt_le_dec t 0) as [Hneg | Hpos].
  - replace t with (- (- t)) by lia.
    rewrite Z.quot_opp_l, Z.quot_div_nonneg by lia.
    assert (- t / n <= - lo) by (apply Z.div_le_upper_bound; lia).
    assert (- hi <= - t / n) by (apply Z.div_le_lower_bound; lia).
    lia.
  - rewrite Z.quot_div_nonneg by lia.
    split; [apply Z.div_le_lower_bound; lia | apply Z.div_le_upper_bound; lia].
Qed.

(** When the sum fits, the mean the code computes is the truncated mean. *)
Lemma avgLatency_when_sum_fits (l : list Z) :
  l <> [] -> Int64.in_range (total l) -> Z.of_nat (List.length l) < 2 ^ 63 ->
  avgLatency_of l = Z.quot (total l) (Z.of_nat (List.length l)).
Proof.
  intros Hne Hfit Hn.
  assert (Hpos : 0 < Z.of_nat (List.length l))
    by (destruct l; [congruence | rewrite length_cons; lia]).
  unfold avgLatency_of. rewrite sum_loop_wrap, len_small, wrap_in_range by assumption.
  unfold Int64.quot. apply wrap_in_range.
  unfold Int64.in_range, Int64.min_int, Int64.max_int in *.
  pose proof (Z.quot_le_mono (total l) (2 ^ 63 - 1) 1 ltac:(lia) ltac:(lia)).
  destruct (Z_lt_le_dec (total l) 0) as [Hneg | Hnonneg].
  - pose proof (quot_between (total l) (Z.of_nat (List.length l)) (total l) 0
                  Hpos ltac:(nia)). lia.
  - pose proof (quot_between (total l) (Z.of_nat (List.length l)) 0 (total l)
                  Hpos ltac:(nia)). lia.
Qed.

Lemma variance_loop_equal (c : Z) (l : list Z) :
  Forall (eq c) l -> variance_loop c l = 0.
Proof.
  intros H. unfold variance_loop.
  set (f := fun variance lat =>
              let diff := Int64.sub lat c in
              Int64.add variance (Int64.mul diff diff)).
  assert (E : f 0 c = 0)
    by (unfold f, Int64.sub; rewrite Z.sub_diag; reflexivity).
  induction H as [| x l Hx _ IH]; [reflexivity |].
  subst x. cbn [fold_left]. rewrite E. exact IH.
Qed.

Lemma total_equal (c : Z) (l : list Z) :
  Forall (eq c) l -> total l = Z.of_nat (List.length l) * c.
Proof.
  induction 1 as [| x l Hx _ IH]; [reflexivity |].
  subst x. change (total (c :: l)) with (c + total l).
  rewrite length_cons, Nat2Z.inj_succ. lia.
Qed.

Lemma squared_deviations_nonneg (avg : Z) (l : list Z) : 0 <= squared_deviations avg l.
Proof.
  induction l as [| x l IH]; [simpl; lia |].
  change (squared_deviations avg (x :: l))
    with ((x - avg) * (x - avg) + squared_deviations avg l).
  pose proof (Z.square_nonneg (x - avg)). lia.
Qed.

(** While the squared deviations fit, the loop adds them up exactly. *)
Lemma variance_loop_when_fits (avg : Z) (l : list Z) :
  squared_deviations avg l < 2 ^ 63 ->
  variance_loop avg l = squared_deviations avg l.
Proof.
  unfold variance_loop.
  set (f := fun variance lat =>
              let diff := Int64.sub lat avg in
              Int64.add variance (Int64.mul diff diff)).
  assert (H : forall acc, 0 <= acc -> acc + squared_deviations avg l < 2 ^ 63 ->
                          fold_left f l acc = acc + squared_deviations avg l).
  { induction l as [| x l IH]; intros acc Hacc Hfit; [simpl; lia |].
    change (squared_deviations avg (x :: l))
      with ((x - avg) * (x - avg) + squared_deviations avg l) in *.
    pose proof (squared_deviations_nonneg avg l) as Hrest.
    pose proof (Z.square_nonneg (x - avg)) as Hsq.
    assert (Hd : - 2 ^ 63 <= x - avg < 2 ^ 63) by nia.
    cbn [fold_left].
    change (f acc x)
      with (Int64.add acc (Int64.mul (Int64.sub x avg) (Int64.sub x avg))).
    unfold Int64.add, Int64.mul, Int64.sub.
    rewrite (wrap_small (x - avg)) by exact Hd.
    rewrite (wrap_small ((x - avg) * (x - avg))) by lia.
    rewrite (wrap_small (acc + (x - avg) * (x - avg))) by lia.
    rewrite IH by lia. lia. }
  intros Hfit. rewrite H by lia. lia.
Qed.

(** What is stored as the jitter when the jitter value is in range. *)
Lemma stored_jitter_when_small
  (fallback : ConvFallback) (l : list Z) (server : Server) :
  l <> [] -> Z.of_nat (List.length l) < 2 ^ 63 ->
  0 <= jitterValue_of fallback l < 2 ^ 53 ->
  srvJitter (aggregate fallback l server) =
  jitterValue_of fallback l * (if avgLatency_of l >? 1000000 then 1 else 1000).
Proof.
  intros Hne Hn Hj.
  assert (Hpos : 0 < Z.of_nat (List.length l))
    by (destruct l; [congruence | rewrite length_cons; lia]).
  unfold aggregate. rewrite len_small by exact Hn.
  destruct (Z.gtb_spec (Z.of_nat (List.length l)) 0) as [_ | H0]; [| lia].
  unfold Nanosecond, Microsecond, Int64.mul.
  destruct (avgLatency_of l >? 1000000); cbn [srvJitter set_Jitter];
    rewrite wrap_small by lia; reflexivity.
Qed.

(** X19: as long as neither [int64] sum of the latency phase overflows - the
    sum of the samples and the sum of their squared deviations from the
    mean - the stored jitter is at least 0; and whenever all samples are
    equal and their sum fits, the mean is the common value and the stored
    jitter is 0. *)
Theorem jitter_nonneg_zero_when_equal
  (fallback : ConvFallback) (latencies : list Z) (server : Server) :
  latencies <> [] ->
  Z.of_nat (List.length latencies) < 2 ^ 63 ->
  Int64.in_range (total latencies) ->
  (squared_deviations (avgLatency_of latencies) latencies < 2 ^ 63 ->
   0 <= srvJitter (aggregate fallback latencies server)) /\
  (forall c, Forall (eq c) latencies ->
             avgLatency_of latencies = c /\
             srvJitter (aggregate fallback latencies server) = 0).
Proof.
  intros Hne Hn Hsum.
  assert (Hpos : 0 < Z.of_nat (List.length latencies))
    by (destruct latencies; [congruence | rewrite length_cons; lia]).
  split.
  - intros Hfit.
    assert (Hj : 0 <= jitterValue_of fallback latencies < 2 ^ 53).
    { unfold jitterValue_of. rewrite len_small by exact Hn.
      rewrite variance_loop_when_fits by exact Hfit.
      apply jitter_conversion; [| lia].
      split; [apply squared_deviations_nonneg | exact Hfit]. }
    rewrite stored_jitter_when_small by assumption.
    destruct (avgLatency_of latencies >? 1000000); lia.
  - intros c Hc.
    assert (Havg : avgLatency_of latencies = c).
    { rewrite avgLatency_when_sum_fits by assumption.
      rewrite (total_equal c) by assumption.
      rewrite Z.mul_comm. apply Z.quot_mul. lia. }
    split; [exact Havg |].
    assert (Hj : jitterValue_of fallback latencies = 0).
    { unfold jitterValue_of. rewrite len_small by exact Hn.
      rewrite Havg, (variance_loop_equal c) by assumption.
      apply jitter_conversion; [lia | lia | reflexivity]. }
    rewrite stored_jitter_when_small by (trivial; rewrite Hj; lia).
    rewrite Hj. reflexivity.
Qed.

Lemma jitter_nonneg_zero_when_equal_witness :
  0 <= srvJitter (aggregate amd64_conv three_probes fresh_server) /\
  avgLatency_of five_slow = ms 2000 /\
  srvJitter (aggregate amd64_conv five_slow fresh_server) = 0.
Proof.
  assert (Hne : forall x l, x :: l <> @nil Z) by (intros x l H; discriminate H).
  split.
  - refine (proj1 (jitter_nonneg_zero_when_equal amd64_conv three_probes fresh_server
                     (Hne _ _) _ _) _).
    + simpl; lia.
    + vm_compute. split; discriminate.
    + vm_compute. reflexivity.
  - refine (proj2 (jitter_nonneg_zero_when_equal amd64_conv five_slow fresh_server
                     (Hne _ _) _ _) (ms 2000) _).
    + simpl; lia.
    + vm_compute. split; discriminate.
    + repeat constructor.
Defined.

(** C4: at the claim's own example, five probes of 10 ms, the code gives an
    average latency of 10 ms and a jitter of 0; it breaks the claim on two
    probes of 100 ms and 4.5 s.  Their squared deviations add up to
    9,680,000,000,000,000,000, more than an [int64] holds; the sum the loop
    leaves is negative, its square root is NaN, and the jitter stored is
    the smallest [int64] on amd64 - negative, where a standard deviation is
    at least 0 - and 0 on arm64, where the samples are 2.2 s from their
    mean. *)
Theorem far_apart_jitter_negative_on_amd64 :
  Forall Int64.in_range two_far_apart /\
  avgLatency_of two_far_apart = ms 2300 /\
  squared_deviations (avgLatency_of two_far_apart) two_far_apart
  = 9680000000000000000 /\
  Int64.max_int < 9680000000000000000 /\
  variance_loop (avgLatency_of two_far_apart) two_far_apart < 0 /\
  f64_sqrt (f64_div (float64_of_int
                       (variance_loop (avgLatency_of two_far_apart) two_far_apart))
                    (float64_of_int (len two_far_apart))) = S754_nan /\
  srvJitter (aggregate amd64_conv two_far_apart fresh_server) = Int64.min_int /\
  srvJitter (aggregate amd64_conv two_far_apart fresh_server) < 0 /\
  srvJitter (aggregate arm64_conv two_far_apart fresh_server) = 0 /\
  (forall fallback server,
      srvLatency (aggregate fallback five_equal server) = ms 10 /\
      srvJitter (aggregate fallback five_equal server) = 0).
Proof.
  split; [repeat constructor; vm_compute; discriminate |].
  repeat split; vm_compute; reflexivity.
Qed.

(** *** The unit guess *)

(** C9: with [m] the truncated integer mean of the raw samples, above
    1,000,000 the stored latency is [m] nanoseconds and the stored jitter the
    jitter value in nanoseconds, otherwise they are [m] and the jitter value
    in microseconds; so for a mean between 0 and 1,000,000 the stored latency
    is 1000 times the mean. *)
Theorem unit_heuristic
  (fallback : ConvFallback) (latencies : list Z) (server : Server) :
  latencies <> [] ->
  Z.of_nat (List.length latencies) < 2 ^ 63 ->
  let m := avgLatency_of latencies in
  let j := jitterValue_of fallback latencies in
  let server' := aggregate fallback latencies server in
  m = Int64.wrap (Z.quot (sum_loop latencies) (Z.of_nat (List.length latencies))) /\
  (1000000 < m ->
   srvLatency server' = m /\
   srvJitter server' = Int64.mul j Nanosecond /\
   (Int64.in_range j -> srvJitter server' = j)) /\
  (m <= 1000000 ->
   srvLatency server' = Int64.mul m Microsecond /\
   srvJitter server' = Int64.mul j Microsecond /\
   (Int64.in_range (j * 1000) -> srvJitter server' = j * 1000)) /\
  (0 <= m <= 1000000 -> srvLatency server' = 1000 * m).
Proof.
  intros Hne Hn m j server'.
  assert (Hlen : len latencies = Z.of_nat (List.length latencies))
    by (apply len_small; exact Hn).
  assert (Hpos : (len latencies >? 0) = true).
  { rewrite Hlen. apply Z.gtb_lt.
    destruct latencies; [congruence | rewrite length_cons; lia]. }
  assert (Hm : Int64.in_range m) by apply wrap_range.
  unfold server', aggregate. rewrite Hpos. fold m j.
  split; [unfold m, avgLatency_of, Int64.quot; rewrite Hlen; reflexivity |].
  split; [| split].
  - intros Hgt. apply Z.gtb_lt in Hgt. rewrite Hgt.
    cbn [srvLatency srvJitter set_Latency set_Jitter].
    unfold Int64.mul, Nanosecond. rewrite !Z.mul_1_r.
    repeat split; [apply wrap_in_range; exact Hm | apply wrap_in_range].
  - intros Hle. destruct (Z.gtb_spec m 1000000) as [Hgt | _]; [lia |].
    cbn [srvLatency srvJitter set_Latency set_Jitter].
    repeat split. intros Hj. unfold Int64.mul, Microsecond.
    apply wrap_in_range; exact Hj.
  - intros [H0 Hle]. destruct (Z.gtb_spec m 1000000) as [Hgt | _]; [lia |].
    cbn [srvLatency srvJitter set_Latency set_Jitter].
    unfold Int64.mul, Microsecond. rewrite wrap_small by lia. lia.
Qed.

Lemma unit_heuristic_witness :
  avgLatency_of two_fast = 600000 /\
  srvLatency (aggregate amd64_conv two_fast fresh_server) = 1000 * 600000.
Proof.
  split; [reflexivity |].
  apply (proj2 (proj2 (proj2
           (unit_heuristic amd64_conv two_fast fresh_server
              ltac:(intro H; discriminate H) ltac:(simpl; lia))))).
  vm_compute. split; intro H; discriminate H.
Defined.

(** *** Order of the samples *)

Lemma fold_left_permutation {A : Type} (f : Z -> A -> Z) (l l' : list A) :
  (forall acc x y, f (f acc x) y = f (f acc y) x) ->
  Permutation l l' ->
  forall acc, fold_left f l acc = fold_left f l' acc.
Proof.
  intros Hswap Hperm.
  induction Hperm as [| x l l' _ IH | x y l | l l' l'' _ IH1 _ IH2]; intros acc.
  - reflexivity.
  - simpl. apply IH.
  - simpl. rewrite Hswap. reflexivity.
  - rewrite IH1. apply IH2.
Qed.

Lemma sum_loop_permutation (l l' : list Z) :
  Permutation l l' -> sum_loop l = sum_loop l'.
Proof.
  intros H. unfold sum_loop. apply fold_left_permutation; [| exact H].
  intros acc x y. unfold Int64.add. rewrite !wrap_add_wrap_l. f_equal. lia.
Qed.

Lemma variance_loop_permutation (avg : Z) (l l' : list Z) :
  Permutation l l' -> variance_loop avg l = variance_loop avg l'.
Proof.
  intros H. unfold variance_loop. apply fold_left_permutation; [| exact H].
  intros acc x y. cbv zeta. unfold Int64.add. rewrite !wrap_add_wrap_l. f_equal. lia.
Qed.

(** X1: the outcome of the latency phase does not depend on the order in
    which the probes came back, wrap-around included. *)
Theorem aggregate_order_independent
  (fallback : ConvFallback) (l l' : list Z) (server : Server) :
  Permutation l l' ->
  aggregate fallback l server = aggregate fallback l' server.
Proof.
  intros H.
  assert (Hlen : len l = len l')
    by (unfold len; rewrite (Permutation_length H); reflexivity).
  assert (Havg : avgLatency_of l = avgLatency_of l')
    by (unfold avgLatency_of; rewrite Hlen, (sum_loop_permutation l l' H); reflexivity).
  assert (Hj : jitterValue_of fallback l = jitterValue_of fallback l').
  { unfold jitterValue_of.
    rewrite Hlen, Havg, (variance_loop_permutation _ l l' H). reflexivity. }
  unfold aggregate. rewrite Hlen, Havg, Hj. reflexivity.
Qed.

Lemma aggregate_order_independent_witness :
  aggregate amd64_conv three_probes fresh_server
  = aggregate amd64_conv three_probes_shuffled fresh_server.
Proof.
  apply aggregate_order_independent.
  unfold three_probes, three_probes_shuffled.
  apply Permutation_sym, (Permutation_cons_app [ms 10; ms 12] []).
  apply Permutation_refl.
Defined.

(** *** The mean lies between the samples *)

Lemma total_lower (lo : Z) (l : list Z) :
  Forall (fun x => lo <= x) l -> Z.of_nat (List.length l) * lo <= total l.
Proof.
  induction 1 as [| x l Hx _ IH]; [simpl; lia |].
  change (total (x :: l)) with (x + total l).
  rewrite length_cons, Nat2Z.inj_succ. lia.
Qed.

(** X2: for a non-empty list of samples between [lo] and [hi] nanoseconds
    whose sum fits in [int64], the mean the code computes lies between [lo]
    and [hi]; when [lo] is above one millisecond that mean is stored as the
    latency unchanged. *)
Theorem mean_between_extremes
  (fallback : ConvFallback) (lo hi : Z) (l : list Z) (server : Server) :
  l <> [] ->
  Forall (fun x => lo <= x <= hi) l ->
  Int64.in_range (total l) ->
  Z.of_nat (List.length l) < 2 ^ 63 ->
  lo <= avgLatency_of l <= hi /\
  (1000000 < lo ->
   srvLatency (aggregate fallback l server) = avgLatency_of l /\
   lo <= srvLatency (aggregate fallback l server) <= hi).
Proof.
  intros Hne Hall Hfit Hn.
  assert (Hpos : 0 < Z.of_nat (List.length l))
    by (destruct l; [congruence | rewrite length_cons; lia]).
  assert (Hallhi : Forall (fun x => x <= hi) l)
    by (eapply Forall_impl; [| exact Hall]; simpl; intros; lia).
  assert (Halllo : Forall (fun x => lo <= x) l)
    by (eapply Forall_impl; [| exact Hall]; simpl; intros; lia).
  pose proof (total_lower lo l Halllo) as Hlo.
  pose proof (total_upper hi l Hallhi) as Hhi.
  assert (Hmean : lo <= avgLatency_of l <= hi).
  { rewrite avgLatency_when_sum_fits by assumption.
    apply quot_between; lia. }
  split; [exact Hmean |].
  intros Hms.
  assert (Hstored : srvLatency (aggregate fallback l server) = avgLatency_of l).
  { unfold aggregate. rewrite len_small by exact Hn.
    destruct (Z.gtb_spec (Z.of_nat (List.length l)) 0) as [_ | H0]; [| lia].
    destruct (Z.gtb_spec (avgLatency_of l) 1000000) as [_ | Hle]; [| lia].
    cbn [srvLatency set_Latency set_Jitter].
    unfold Int64.mul, Nanosecond. rewrite Z.mul_1_r.
    apply wrap_in_range. apply wrap_range. }
  rewrite Hstored. split; [reflexivity | exact Hmean].
Qed.

Lemma mean_between_extremes_witness :
  -7000000 <= avgLatency_of stepped_clock_probes <= 13000000 /\
  ms 10 <= srvLatency (aggregate amd64_conv three_probes fresh_server) <= ms 17.
Proof.
  assert (Hne : forall x l, x :: l <> @nil Z) by (intros x l H; discriminate H).
  split.
  - refine (proj1 (mean_between_extremes amd64_conv (-7000000) 13000000
                     stepped_clock_probes fresh_server (Hne _ _) _ _ _)).
    + unfold stepped_clock_probes; repeat (apply Forall_cons; [lia |]); apply Forall_nil.
    + vm_compute. split; discriminate.
    + simpl; lia.
  - refine (proj2 (proj2 (mean_between_extremes amd64_conv (ms 10) (ms 17)
                     three_probes fresh_server (Hne _ _) _ _ _) _)).
    + unfold three_probes, ms, Millisecond;
        repeat (apply Forall_cons; [lia |]); apply Forall_nil.
    + vm_compute. split; discriminate.
    + simpl; lia.
    + unfold ms, Millisecond; lia.
Defined.

(** *** What the unit guess does to the latency points *)




Local Open Scope Z_scope.

(** *** Labels follow scores *)

Lemma label_rank_monotone (a b : Z) :
  a <= b -> label_rank (getQualityLabel a) <= label_rank (getQualityLabel b).
Proof.
  intros H. unfold getQualityLabel.
  destruct (Z.geb_spec a 80), (Z.geb_spec b 80); try lia; try (vm_compute; discriminate);
  destruct (Z.geb_spec a 60), (Z.geb_spec b 60); try lia; try (vm_compute; discriminate);
  destruct (Z.geb_spec a 40), (Z.geb_spec b 40); try lia; try (vm_compute; discriminate);
  destruct (Z.geb_spec a 20), (Z.geb_spec b 20); try lia; vm_compute; discriminate.
Qed.

Lemma score_after_worsening (u : UseCase) (r1 r2 : SpeedTestResult) :
  int64_durations r1 -> int64_durations r2 -> worsens r1 r2 ->
  score_of u r2 <= score_of u r1.
Proof.
  intros [Hl1 Hj1] [Hl2 Hj2] Hw.
  rewrite !score_decomposition.
  destruct (table_descending_parts _ (spec_tables_descending u)) as (Hd & Hl & Hj & Hu).
  unfold download_points, latency_points, jitter_points, upload_points.
  destruct Hw as [Hlt E1 E2 E3 | Hlt E1 E2 E3 | Hlt E1 E2 E3 | Hlt E1 E2 E3];
    rewrite E1, E2, E3.
  - pose proof (scan_at_most_antitone (latency_table (spec_table u))
      (Milliseconds (Latency r1)) (Milliseconds (Latency r2)) Hl
      (Milliseconds_mono _ _ Hl1 Hl2 ltac:(lia))). lia.
  - pose proof (scan_at_most_antitone (jitter_table (spec_table u))
      (Milliseconds (Jitter r1)) (Milliseconds (Jitter r2)) Hj
      (Milliseconds_mono _ _ Hj1 Hj2 ltac:(lia))). lia.
  - pose proof (scan_at_least_monotone (download_table (spec_table u)) _ _ Hd Hlt). lia.
  - pose proof (scan_at_least_monotone (upload_table (spec_table u)) _ _ Hu Hlt). lia.
Qed.

(** X4: in the assessment [calculateNetworkQuality] returns, a result with one
    metric strictly worse and the others equal never gets a better label,
    for streaming, gaming or webchat; and a higher score never gets a worse
    label. *)
Theorem labels_never_improve (r1 r2 : SpeedTestResult) :
  int64_durations r1 -> int64_durations r2 -> worsens r1 r2 ->
  label_rank (Streaming (calculateNetworkQuality r2))
    <= label_rank (Streaming (calculateNetworkQuality r1)) /\
  label_rank (Gaming (calculateNetworkQuality r2))
    <= label_rank (Gaming (calculateNetworkQuality r1)) /\
  label_rank (Webchat (calculateNetworkQuality r2))
    <= label_rank (Webchat (calculateNetworkQuality r1)) /\
  (forall a b, a <= b ->
     label_rank (getQualityLabel a) <= label_rank (getQualityLabel b)).
Proof.
  intros H1 H2 Hw. unfold calculateNetworkQuality; cbn [Streaming Gaming Webchat].
  repeat split.
  - apply label_rank_monotone, (score_after_worsening UseStreaming r1 r2 H1 H2 Hw).
  - apply label_rank_monotone, (score_after_worsening UseGaming r1 r2 H1 H2 Hw).
  - apply label_rank_monotone, (score_after_worsening UseWebchat r1 r2 H1 H2 Hw).
  - apply label_rank_monotone.
Qed.

Lemma labels_never_improve_witness :
  worsens sample_result slow_sample /\
  label_rank (Gaming (calculateNetworkQuality slow_sample))
    <= label_rank (Gaming (calculateNetworkQuality sample_result)).
Proof.
  assert (Hw : worsens sample_result slow_sample)
    by (apply worse_latency; [vm_compute | | |]; reflexivity).
  assert (D1 : int64_durations sample_result)
    by (split; split; intro H; discriminate H).
  assert (D2 : int64_durations slow_sample)
    by (split; split; intro H; discriminate H).
  split; [exact Hw |].
  exact (proj1 (proj2 (labels_never_improve sample_result slow_sample D1 D2 Hw))).
Defined.

(** *** A run in which every phase succeeds *)

(** X5: when the listing, the selection, the probe and both throughput tests
    succeed, [RunSpeedTest] returns no error, a result built from the first
    target (its name and country, the latency and jitter of the latency
    phase, the two measured rates converted by [Mbps]) and the assessment of
    exactly that result, after the five library calls in order. *)
Theorem successful_run
  (lib : Library) (servers rest : list Server) (server : Server)
  (latencies : list Z) (dl ul : float64) :
  FetchServers lib = (servers, None) ->
  FindServer lib servers = (server :: rest, None) ->
  TCPPing lib server = (latencies, None) ->
  DownloadTest lib (aggregate (conv_fallback lib) latencies server) = (dl, None) ->
  UploadTest lib (set_DLSpeed dl (aggregate (conv_fallback lib) latencies server))
    = (ul, None) ->
  let measured := aggregate (conv_fallback lib) latencies server in
  let result :=
    {| Latency := srvLatency measured; Jitter := srvJitter measured;
       DownloadSpeed := Mbps lib dl; UploadSpeed := Mbps lib ul;
       ServerName := Name server; ServerCountry := Country server |} in
  fst (run lib) = (Some result, Some (calculateNetworkQuality result), None) /\
  calls lib = [EvFetchServers; EvFindServer; EvTCPPing; EvDownloadTest; EvUploadTest].
Proof.
  intros Hfetch Hfind Hping Hdl Hul measured result.
  unfold calls, run, RunSpeedTest, WithSpinner, fail, bind, ret, emit.
  rewrite Hfetch; simpl. rewrite Hfind; simpl. rewrite Hping; simpl.
  rewrite Hdl; simpl. rewrite Hul; simpl.
  split; [| reflexivity].
  unfold result, measured, aggregate.
  destruct (len latencies >? 0); [destruct (avgLatency_of latencies >? 1000000) |];
    reflexivity.
Qed.

Lemma successful_run_witness :
  exists result,
    fst (run (lib_with fresh_server three_probes))
    = (Some result, Some (calculateNetworkQuality result), None) /\
    Latency result = ms 13 /\ ServerName result = "Lisbon".
Proof.
  destruct (successful_run (lib_with fresh_server three_probes)
              [fresh_server] [] fresh_server three_probes f64_30 f64_10
              eq_refl eq_refl eq_refl eq_refl eq_refl) as [Hrun _].
  eexists. split; [exact Hrun |]. split; reflexivity.
Defined.

(** X6: whatever the library answers, the log of a run is well bracketed:
    spinners never nest, every spinner started is stopped before the call
    returns (also when a phase fails), the listing, the probe and the
    throughput tests run under a spinner, and nothing is printed while one
    is active. *)
Theorem run_log_well_bracketed (lib : Library) :
  well_bracketed false (snd (run lib)) = true.
Proof.
  unfold run, RunSpeedTest, WithSpinner, fail, bind, ret, emit.
  destruct (FetchServers lib) as [servers [e1 |]]; simpl; [reflexivity |].
  destruct (FindServer lib servers) as [targets [e2 |]]; simpl; [reflexivity |].
  destruct targets as [| server rest]; simpl; [reflexivity |].
  destruct (TCPPing lib server) as [latencies [e3 |]]; simpl; [reflexivity |].
  destruct (DownloadTest lib _) as [dl [e4 |]]; simpl; [reflexivity |].
  destruct (UploadTest lib _) as [ul [e5 |]]; simpl; reflexivity.
Qed.

(** X7: only the first target matters: dropping every other server from the
    selection changes neither what [RunSpeedTest] returns nor what it
    does. *)
Theorem only_first_target_used (lib : Library) :
  run (first_target_only lib) = run lib.
Proof.
  unfold run, RunSpeedTest, WithSpinner, fail, bind, ret, emit, first_target_only.
  cbn [FetchServers FindServer TCPPing DownloadTest UploadTest Mbps conv_fallback].
  destruct (FetchServers lib) as [servers [e1 |]]; simpl; [reflexivity |].
  destruct (FindServer lib servers) as [targets [e2 |]]; simpl; [reflexivity |].
  destruct targets as [| server rest]; simpl; reflexivity.
Qed.

(** *** The frames *)

Lemma frame_positions_app (ws ws' : list Harness.Write) :
  frame_positions (ws ++ ws') = (frame_positions ws ++ frame_positions ws')%list.
Proof.
  induction ws as [| [p m |] ws IH]; simpl; [reflexivity | f_equal; exact IH | exact IH].
Qed.

Lemma frames_cycle_init (message : string) : frames_cycle message Harness.init.
Proof. unfold frames_cycle; simpl. repeat split; [lia | constructor]. Qed.

Ltac harness_fields :=
  cbn [Harness.set_main Harness.set_render Harness.set_action Harness.set_pos
       Harness.set_errChan Harness.set_sigChan Harness.set_notified
       Harness.write Harness.set_produced Harness.main Harness.render
       Harness.action Harness.pos Harness.errChan Harness.sigChan
       Harness.notified Harness.output Harness.produced] in *.

Lemma frames_cycle_step (message : string) (s s' : Harness.State) :
  Harness.invariant s ->
  frames_cycle message s -> Harness.step message s s' -> frames_cycle message s'.
Proof.
  unfold frames_cycle. intros (_ & _ & Hinv) (Hpos & Hlt & Hnext & Hmsg) Hstep.
  assert (HN : List.length Harness.frames <> 0%nat) by discriminate.
  set (N := List.length Harness.frames) in *.
  destruct Hstep; harness_fields;
    repeat match goal with
           | H : Harness.render _ = _ |- _ => rewrite H in *
           | H : Harness.main _ = _ |- _ => rewrite H in *
           end;
    try (repeat split; trivial; fail).
  - (* main_start *)
    destruct Hinv as (Hidle & _). rewrite Hidle in *. repeat split; trivial.
  - (* main_clear *)
    rewrite frame_positions_app, app_nil_r. cbn [frame_positions].
    destruct Hinv as (_ & _ & Hret). rewrite Hret in *.
    repeat split; trivial.
    apply Forall_app. split; [exact Hmsg | repeat constructor].
  - (* render_print *)
    rewrite frame_positions_app. cbn [frame_positions].
    rewrite length_app, Nat.add_1_r, seq_S, map_app. cbn [List.length map Nat.add].
    rewrite Nat.mod_small in Hnext by exact Hlt.
    repeat split.
    + rewrite <- Hpos, Hnext. reflexivity.
    + exact Hlt.
    + rewrite Hnext.
      rewrite <- !Nat.add_1_l. rewrite Nat.Div0.add_mod_idemp_r. reflexivity.
    + apply Forall_app. split; [exact Hmsg | repeat constructor].
  - (* render_advance *)
    repeat split; trivial.
    + apply Nat.mod_upper_bound. exact HN.
    + rewrite Nat.Div0.mod_mod, Nat.add_1_r. exact Hnext.
Qed.

(** X8: in every reachable state of the harness the frame index is within the
    frames, so [s.frames[s.pos]] is never out of range, and the frames
    written so far are the frames 0, 1, 2, ... of the cycle in order, each
    with the message of the call. *)
Theorem spinner_frames_cycle (message : string) (s : Harness.State) :
  Harness.reachable message s ->
  (Harness.pos s < List.length Harness.frames)%nat /\
  nth_error Harness.frames (Harness.pos s) <> None /\
  frame_positions (Harness.output s)
    = map (fun i => i mod List.length Harness.frames)%nat
        (seq 0 (List.length (frame_positions (Harness.output s)))) /\
  Forall (carries message) (Harness.output s).
Proof.
  intros Hreach.
  assert (H : frames_cycle message s).
  { induction Hreach as [| s s' Hreach IH Hstep]; [apply frames_cycle_init |].
    exact (frames_cycle_step message s s'
             (reachable_invariant message s Hreach) IH Hstep). }
  destruct H as (Hpos & Hlt & _ & Hmsg).
  repeat split; trivial.
  apply nth_error_Some. exact Hlt.
Qed.

Lemma spinner_frames_cycle_witness :
  frame_positions (Harness.output (Harness.one_frame_run "Pinging servers...")) = [0%nat] /\
  (Harness.pos (Harness.one_frame_run "Pinging servers...") < 10)%nat.
Proof.
  split; [reflexivity |].
  exact (proj1 (spinner_frames_cycle "Pinging servers..."
                  (Harness.one_frame_run "Pinging servers...")
                  (one_frame_run_reachable "Pinging servers..."))).
Defined.

(** *** A signal taken by the render loop *)

Lemma interrupted_output (message : string) (s s' : Harness.State) :
  Harness.render s = Harness.RSigStop -> Harness.before_stop_taken s ->
  Harness.step message s s' -> Harness.output s' = Harness.output s.
Proof.
  unfold Harness.before_stop_taken. intros Hr Hm Hstep.
  destruct Hstep; simpl; try reflexivity;
    repeat match goal with
           | H : Harness.main _ = _ |- _ => rewrite H in *
           end; try congruence; tauto.
Qed.

Lemma interrupted_run_reachable (message : string) :
  Harness.reachable message interrupted_run.
Proof.
  pose proof (Harness.reach_init message) as R. unfold Harness.init in R.
  fire R ltac:(fun s => constr:(Harness.main_start message s eq_refl)).
  fire R ltac:(fun s => constr:(Harness.signal_arrives message s eq_refl eq_refl)).
  fire R ltac:(fun s => constr:(Harness.render_signal message s eq_refl eq_refl)).
  exact R.
Qed.

(** X9: once the render loop has taken SIGINT or SIGTERM it blocks in its own
    [Stop] on [s.stop], which only its own select receives from: from then
    on the render loop stays there ([os.Exit(1)] is not reached), nothing is
    written any more (the line is never cleared) and [WithSpinner] never
    returns. *)
Theorem interrupt_freezes_harness
  (message : string) (s s' : Harness.State) :
  Harness.reachable message s ->
  Harness.render s = Harness.RSigStop ->
  Harness.steps message s s' ->
  Harness.render s' = Harness.RSigStop /\
  Harness.output s' = Harness.output s /\
  (forall v, Harness.main s' <> Harness.MReturned v).
Proof.
  intros Hreach Hr Hsteps.
  assert (Hb : Harness.before_stop_taken s).
  { pose proof (reachable_invariant message s Hreach) as (_ & _ & Hmain).
    unfold Harness.before_stop_taken.
    destruct (Harness.main s); try exact I; intuition congruence. }
  assert (H : Harness.render s' = Harness.RSigStop /\ Harness.before_stop_taken s' /\
              Harness.output s' = Harness.output s).
  { induction Hsteps as [| s s' s'' _ IH Hstep]; [auto |].
    destruct (IH Hreach Hr Hb) as (Hr' & Hb' & Ho').
    destruct (interrupted_step message s' s'' Hr' Hb' Hstep) as [Hr'' Hb''].
    pose proof (interrupted_output message s' s'' Hr' Hb' Hstep) as Ho''.
    repeat split; [exact Hr'' | exact Hb'' | congruence]. }
  destruct H as (Hr' & Hb' & Ho').
  repeat split; trivial.
  intros v E. unfold Harness.before_stop_taken in Hb'. rewrite E in Hb'. exact Hb'.
Qed.

Lemma interrupt_freezes_harness_witness :
  Harness.reachable "Fetching server list..." interrupted_run /\
  (forall v, Harness.main interrupted_run <> Harness.MReturned v).
Proof.
  split; [apply interrupted_run_reachable |].
  exact (proj2 (proj2 (interrupt_freezes_harness "Fetching server list..."
                         interrupted_run interrupted_run
                         (interrupted_run_reachable "Fetching server list...")
                         eq_refl (Harness.steps_refl _ _)))).
Defined.

(** *** Without a signal taken the call can always finish *)

Lemma handshake_init : handshake Harness.init.
Proof. reflexivity. Qed.

Lemma handshake_step (message : string) (s s' : Harness.State) :
  Harness.invariant s -> handshake s -> Harness.step message s s' -> handshake s'.
Proof.
  unfold handshake. intros (_ & Hact & Hinv) Hh Hstep.
  destruct Hstep; harness_fields;
    repeat match goal with
           | H : Harness.main _ = _ |- _ => rewrite H in *
           | H : Harness.action _ = _ |- _ => rewrite H in *
           | H : Harness.render _ = _ |- _ => rewrite H in *
           | H : Harness.errChan _ = _ |- _ => rewrite H in *
           end; harness_fields;
    try exact I; try tauto;
    try (destruct (Harness.main s); harness_fields; try tauto;
         try (destruct (Harness.action s); tauto); fail).
  (* action_send *)
  destruct (Harness.main s); try tauto.
  - destruct Hinv as (_ & Hidle & _). discriminate Hidle.
  - destruct Hinv as (Hidle & _). discriminate Hidle.
  - split; [tauto | discriminate].
Qed.

Lemma reachable_handshake (message : string) (s : Harness.State) :
  Harness.reachable message s -> handshake s.
Proof.
  induction 1 as [| s s' Hreach IH Hstep]; [apply handshake_init |].
  exact (handshake_step message s s' (reachable_invariant message s Hreach) IH Hstep).
Qed.

Lemma steps_step_first (message : string) (s s1 s' : Harness.State) :
  Harness.step message s s1 -> Harness.steps message s1 s' -> Harness.steps message s s'.
Proof.
  intros Hstep Hsteps. induction Hsteps as [| s1 s2 s3 _ IH Hnext].
  - eapply Harness.steps_next; [apply Harness.steps_refl | exact Hstep].
  - eapply Harness.steps_next; [exact (IH Hstep) | exact Hnext].
Qed.

(** Some step brings the caller closer to returning and leaves the render
    loop out of the signal branch. *)
Lemma closer_step (message : string) (s : Harness.State) :
  Harness.invariant s -> handshake s ->
  Harness.render s <> Harness.RSigStop ->
  (forall v, Harness.main s <> Harness.MReturned v) ->
  exists s1, Harness.step message s s1 /\
             Harness.render s1 <> Harness.RSigStop /\
             (distance s1 < distance s)%nat.
Proof.
  intros (_ & _ & Hinv) Hh Hr Hnot. unfold handshake in Hh. unfold distance.
  destruct (Harness.main s) eqn:Em.
  - (* MStart *)
    eexists. split; [apply Harness.main_start; exact Em |].
    harness_fields. split; [discriminate | lia].
  - (* MSpawn *)
    eexists. split; [apply Harness.main_spawn; exact Em |].
    harness_fields. split; [exact Hr | lia].
  - (* MRecvErr *)
    destruct Hh as [Hloop Hchan].
    destruct (Harness.action s) eqn:Ea.
    + contradiction.
    + eexists. split; [apply (Harness.action_returns message s None); exact Ea |].
      harness_fields. rewrite Em. split; [exact Hr | lia].
    + eexists. split; [apply (Harness.action_send message s e); assumption |].
      harness_fields. rewrite Em. split; [exact Hr | lia].
    + destruct (Harness.errChan s) as [| e rest] eqn:Ec; [congruence |].
      eexists. split; [apply (Harness.main_recv_err message s e rest); assumption |].
      harness_fields. split; [exact Hr |].
      destruct (Harness.render s); lia.
  - (* MSendStop *)
    destruct (Harness.render s) eqn:Er; try discriminate Hh; try congruence.
    + eexists. split; [apply (Harness.stop_rendezvous message s err); assumption |].
      harness_fields. split; [discriminate | lia].
    + eexists. split; [apply Harness.render_print; exact Er |].
      harness_fields. rewrite Em. split; [discriminate | lia].
    + eexists. split; [apply Harness.render_advance; exact Er |].
      harness_fields. rewrite Em. split; [discriminate | lia].
    + eexists. split; [apply Harness.render_wake; exact Er |].
      harness_fields. rewrite Em. split; [discriminate | lia].
  - (* MRecvDone *)
    destruct Hinv as (_ & _ & Hdone).
    eexists. split; [apply (Harness.done_rendezvous message s err); assumption |].
    harness_fields. split; [discriminate | lia].
  - (* MClear *)
    eexists. split; [apply (Harness.main_clear message s err); exact Em |].
    harness_fields. split; [exact Hr | lia].
  - (* MReturn *)
    eexists. split; [apply (Harness.main_return message s err); exact Em |].
    harness_fields. split; [exact Hr | lia].
  - (* MReturned *)
    exfalso. exact (Hnot v eq_refl).
Qed.

(** X10: from every reachable state in which the render loop has not taken a
    signal there is a continuation in which [WithSpinner] returns; together
    with the previous property, the call can still return exactly when the
    loop has not taken a signal. *)
Theorem spinner_can_finish (message : string) (s : Harness.State) :
  Harness.reachable message s ->
  Harness.render s <> Harness.RSigStop ->
  exists s' v, Harness.steps message s s' /\ Harness.main s' = Harness.MReturned v.
Proof.
  intros Hreach Hr.
  remember (distance s) as d eqn:Hd.
  revert s Hreach Hr Hd.
  induction d as [d IH] using (well_founded_induction lt_wf).
  intros s Hreach Hr Hd.
  destruct (Harness.main s) eqn:Em;
    try (destruct (closer_step message s (reachable_invariant message s Hreach)
                     (reachable_handshake message s Hreach) Hr
                     ltac:(intros v E; congruence))
           as (s1 & Hstep & Hr1 & Hlt);
         destruct (IH (distance s1) ltac:(lia) s1
                     (Harness.reach_step message s s1 Hreach Hstep) Hr1 eq_refl)
           as (s' & v & Hsteps & Hret);
         exists s', v; split;
           [exact (steps_step_first message s s1 s' Hstep Hsteps) | exact Hret]).
  exists s, v. split; [apply Harness.steps_refl | exact Em].
Qed.

Lemma spinner_can_finish_witness :
  exists s' v,
    Harness.steps "Finding location..." Harness.init s' /\
    Harness.main s' = Harness.MReturned v.
Proof.
  apply (spinner_can_finish "Finding location..." Harness.init
           (Harness.reach_init _)).
  intro H; discriminate H.
Defined.

(** ** Pinging *)

Lemma assign_at_repeat_app (done : list Ping.PingResult) (v : Ping.PingResult) (k : nat) :
  Ping.assign_at (List.length done) v (done ++ repeat Ping.zero_result (S k))
  = ((done ++ [v]) ++ repeat Ping.zero_result k)%list.
Proof.
  induction done as [| r done IH]; simpl; [reflexivity |].
  f_equal. exact IH.
Qed.

Lemma ping_from_spec (lib : Ping.Pinger) (todo : list Ping.Server)
  (done : list Ping.PingResult) :
  Ping.ping_from lib (List.length done) todo
    (done ++ repeat Ping.zero_result (List.length todo))
  = (done ++ map (Ping.pingServer lib) todo)%list.
Proof.
  revert done. induction todo as [| server rest IH]; intros done.
  - simpl. reflexivity.
  - cbn [Ping.ping_from List.length map].
    rewrite assign_at_repeat_app.
    replace (S (List.length done)) with (List.length (done ++ [Ping.pingServer lib server]))
      by (rewrite length_app; simpl; lia).
    rewrite IH, <- app_assoc. reflexivity.
Qed.

(** X11: [RunPingTests] returns one result per server, in the order of the
    server list, each carrying the server it pinged; a result with an error
    has latency 0, so the latency alone does not tell a failure from a fast
    answer. *)
Theorem ping_results_follow_servers (lib : Ping.Pinger) :
  Ping.RunPingTests lib = map (Ping.pingServer lib) Ping.servers /\
  map Ping.PingedServer (Ping.RunPingTests lib) = Ping.servers /\
  List.length (Ping.RunPingTests lib) = 8%nat /\
  Forall (fun r => Ping.Error r <> None -> Ping.Latency r = 0) (Ping.RunPingTests lib).
Proof.
  assert (H : Ping.RunPingTests lib = map (Ping.pingServer lib) Ping.servers)
    by exact (ping_from_spec lib Ping.servers []).
  rewrite H. split; [reflexivity |].
  assert (Hsrv : forall l, map Ping.PingedServer (map (Ping.pingServer lib) l) = l).
  { induction l as [| s l IH]; [reflexivity |]. simpl. rewrite IH. f_equal.
    unfold Ping.pingServer.
    destruct (Ping.NewPinger lib _); [reflexivity |].
    destruct (Ping.Run lib _); reflexivity. }
  split; [apply Hsrv |]. split; [reflexivity |].
  apply Forall_map, Forall_forall. intros s _. unfold Ping.pingServer.
  destruct (Ping.NewPinger lib _); [reflexivity |].
  destruct (Ping.Run lib _); [reflexivity | simpl; congruence].
Qed.

(** *** The order [handlePing] sorts by *)



(** X13: in any arrangement sorted by that comparison the successful pings
    come first, in order of non-decreasing latency, and the failed ones
    last. *)
Theorem sorted_pings_successes_first (l : list Ping.PingResult) :
  Ping.sorted_by_less l ->
  exists ok bad,
    l = (ok ++ bad)%list /\
    Forall Ping.succeeded ok /\ Forall Ping.failed bad /\
    StronglySorted (fun a b => Ping.Latency a <= Ping.Latency b) ok.
Proof.
  unfold Ping.sorted_by_less.
  induction 1 as [| a l _ IH Hall].
  - exists [], []. repeat split; constructor.
  - destruct IH as (ok & bad & -> & Hok & Hbad & Hsorted).
    destruct (Ping.Error a) as [ea |] eqn:Ea.
    + (* a failed: nothing after it succeeded *)
      exists [], (a :: ok ++ bad)%list.
      split; [reflexivity |]. split; [constructor |]. split; [| constructor].
      constructor; [unfold Ping.failed; congruence |].
      apply Forall_forall. intros b Hb.
      rewrite Forall_forall in Hall. specialize (Hall b Hb).
      unfold Ping.failed. intros Eb. unfold Ping.less in Hall.
      rewrite Eb, Ea in Hall. discriminate Hall.
    + exists (a :: ok), bad.
      split; [reflexivity |]. split; [constructor; [exact Ea | exact Hok] |].
      split; [exact Hbad |].
      constructor; [exact Hsorted |].
      apply Forall_forall. intros b Hb.
      rewrite Forall_forall in Hall, Hok.
      specialize (Hall b (in_or_app _ _ _ (or_introl Hb))).
      specialize (Hok b Hb). unfold Ping.succeeded in Hok. unfold Ping.less in Hall.
      rewrite Hok, Ea in Hall. apply Z.ltb_ge in Hall. exact Hall.
Qed.

Lemma sorted_pings_successes_first_witness :
  Ping.sorted_by_less Ping.sample_sorted /\
  exists ok bad,
    Ping.sample_sorted = (ok ++ bad)%list /\
    Forall Ping.succeeded ok /\ Forall Ping.failed bad /\
    StronglySorted (fun a b => Ping.Latency a <= Ping.Latency b) ok.
Proof.
  assert (H : Ping.sorted_by_less Ping.sample_sorted)
    by (unfold Ping.sorted_by_less, Ping.sample_sorted;
        repeat (constructor; [| repeat (constructor; try reflexivity)]); constructor).
  split; [exact H | exact (sorted_pings_successes_first Ping.sample_sorted H)].
Defined.

(** ** The command line *)

Lemma skipn_2_short (Args : list string) :
  (List.length Args < 3)%nat -> (2 <= List.length Args)%nat -> skipn 2 Args = [].
Proof.
  intros H3 H2. destruct Args as [| a [| b [| c rest]]]; simpl in *; try lia.
  reflexivity.
Qed.

(** X14: [main] hands over to at most one handler and never after or before
    an exit; a handler with arguments gets exactly [os.Args[2:]], which
    exists because at least two arguments are present, and it gets at least
    the arguments it indexes (three for the currency conversion, one for
    the time); every exit [main] itself takes has code 1 and is its last
    action, with no handler called; with fewer than two arguments it prints
    the usage and exits with 1. *)
Theorem main_dispatch (Args : list string) :
  (forall h args,
      In (Cli.Handle h args) (Cli.main Args) ->
      Cli.main Args = [Cli.Handle h args] /\
      (2 <= List.length Args)%nat /\
      args = (if Cli.takes_args h then skipn 2 Args else []) /\
      (Cli.needs h <= List.length args)%nat) /\
  (forall code,
      In (Cli.Exit code) (Cli.main Args) ->
      code = 1 /\
      exists before,
        Cli.main Args = (before ++ [Cli.Exit 1])%list /\
        forallb (fun e => negb (Cli.is_handle e)) before = true) /\
  ((List.length Args < 2)%nat -> Cli.main Args = [Cli.Usage; Cli.Exit 1]).
Proof.
  unfold Cli.main, Cli.rest_of.
  destruct (Nat.ltb_spec (List.length Args) 2) as [Hlt | Hge].
  { split; [| split].
    - intros h args [H | [H | []]]; discriminate H.
    - intros code [H | [H | []]]; try discriminate H.
      injection H as <-. split; [reflexivity |]. exists [Cli.Usage]. split; reflexivity.
    - reflexivity. }
  assert (Hskip : (List.length (skipn 2 Args) = List.length Args - 2)%nat)
    by apply length_skipn.
  split; [| split; [| lia]].
  - intros h args Hin.
    repeat match type of Hin with
           | context [if ?b then _ else _] =>
               match b with
               | (List.length Args <? ?n)%nat =>
                   destruct (Nat.ltb_spec (List.length Args) n)
               | (3 <=? List.length Args)%nat =>
                   destruct (Nat.leb_spec 3 (List.length Args))
               | _ => destruct b
               end
           end;
      cbn [In] in Hin;
      repeat match type of Hin with
             | _ \/ _ => destruct Hin as [Hin | Hin]
             | False => contradiction
             end; try discriminate Hin;
      injection Hin as <- <-;
      (split; [reflexivity |]); (split; [lia |]);
      cbn [Cli.takes_args Cli.needs List.length];
      (split; [first [reflexivity | symmetry; apply skipn_2_short; lia] |]);
      try lia; destruct Args as [| a0 [| a1 rest]]; simpl in *; lia.
  - intros code Hin.
    repeat match type of Hin with
           | context [if ?b then _ else _] => destruct b
           end;
      cbn [In] in Hin;
      repeat match type of Hin with
             | _ \/ _ => destruct Hin as [Hin | Hin]
             | False => contradiction
             end; try discriminate Hin;
      injection Hin as <-; (split; [reflexivity |]);
      first [ exists [Cli.Usage]; split; reflexivity
            | eexists [_; _]; split; reflexivity
            | eexists [_; _; _]; split; reflexivity ].
Qed.

Lemma main_dispatch_witness :
  Cli.main ["nomad"; "cv"; "100"; "usd"; "eur"]
  = [Cli.Handle Cli.CurrencyConversion ["100"; "usd"; "eur"]] /\
  (3 <= List.length ["100"; "usd"; "eur"])%nat.
Proof.
  destruct (proj1 (main_dispatch ["nomad"; "cv"; "100"; "usd"; "eur"])
              Cli.CurrencyConversion ["100"; "usd"; "eur"]
              (or_introl eq_refl)) as (Hmain & _ & _ & Hneeds).
  split; [exact Hmain | exact Hneeds].
Defined.

(** ** Geocoding *)

(** Induction along the way [strings.Split] walks the string. *)
Lemma split_walk (P : string -> Prop) :
  P EmptyString ->
  (forall c, P (String c EmptyString)) ->
  (forall c c2 rest, Ascii.eqb c "," && Ascii.eqb c2 " " = true ->
                     P rest -> P (String c (String c2 rest))) ->
  (forall c c2 rest, Ascii.eqb c "," && Ascii.eqb c2 " " = false ->
                     P (String c2 rest) -> P (String c (String c2 rest))) ->
  forall s, P s.
Proof.
  intros Hnil Hone Hsep Hother.
  assert (H : forall n s, (String.length s <= n)%nat -> P s).
  { induction n as [| n IH]; intros s Hlen.
    - destruct s; [exact Hnil | simpl in Hlen; lia].
    - destruct s as [| c [| c2 rest]]; [exact Hnil | apply Hone |].
      simpl in Hlen.
      destruct (Ascii.eqb c "," && Ascii.eqb c2 " ") eqn:E.
      + apply Hsep; [exact E | apply IH; lia].
      + apply Hother; [exact E | apply IH; simpl; lia]. }
  intros s. exact (H (String.length s) s (Nat.le_refl _)).
Qed.

Lemma split_cons_sep (c c2 : ascii) (rest : string) :
  Ascii.eqb c "," && Ascii.eqb c2 " " = true ->
  Geo.split_comma_space (String c (String c2 rest))
  = EmptyString :: Geo.split_comma_space rest.
Proof. intros E. cbn [Geo.split_comma_space]. rewrite E. reflexivity. Qed.

Lemma split_cons_other (c c2 : ascii) (rest : string) :
  Ascii.eqb c "," && Ascii.eqb c2 " " = false ->
  Geo.split_comma_space (String c (String c2 rest))
  = Geo.extend c (Geo.split_comma_space (String c2 rest)).
Proof. intros E. cbn [Geo.split_comma_space]. rewrite E. reflexivity. Qed.

Lemma sep_chars (c c2 : ascii) :
  Ascii.eqb c "," && Ascii.eqb c2 " " = true -> c = ","%char /\ c2 = " "%char.
Proof.
  intros E. apply andb_prop in E as [E1 E2].
  apply Ascii.eqb_eq in E1, E2. auto.
Qed.

Lemma split_not_nil (s : string) : Geo.split_comma_space s <> [].
Proof.
  pattern s. apply split_walk; clear s.
  - discriminate.
  - intros c. discriminate.
  - intros c c2 rest E _. rewrite split_cons_sep by exact E. discriminate.
  - intros c c2 rest E IH. rewrite split_cons_other by exact E.
    destruct (Geo.split_comma_space (String c2 rest)); [congruence | discriminate].
Qed.

Lemma concat_extend (c : ascii) (parts : list string) :
  parts <> [] ->
  String.concat ", " (Geo.extend c parts) = String c (String.concat ", " parts).
Proof.
  destruct parts as [| p [| q ps]]; [congruence | reflexivity | reflexivity].
Qed.

(** Joining the parts with the separator gives the string back. *)
Lemma concat_split (s : string) :
  String.concat ", " (Geo.split_comma_space s) = s.
Proof.
  pattern s. apply split_walk; clear s.
  - reflexivity.
  - intros c. reflexivity.
  - intros c c2 rest E IH. rewrite split_cons_sep by exact E.
    destruct (sep_chars c c2 E) as [-> ->].
    pose proof (split_not_nil rest) as Hne.
    destruct (Geo.split_comma_space rest) as [| p ps] eqn:Es; [congruence |].
    change (String.concat ", " (EmptyString :: p :: ps))
      with (EmptyString ++ ", " ++ String.concat ", " (p :: ps)).
    rewrite IH. reflexivity.
  - intros c c2 rest E IH. rewrite split_cons_other by exact E.
    rewrite concat_extend by apply split_not_nil. rewrite IH. reflexivity.
Qed.

Lemma head_starts_with_space (s : string) :
  Geo.starts_with_space (hd EmptyString (Geo.split_comma_space s))
  = Geo.starts_with_space s.
Proof.
  destruct s as [| c [| c2 rest]]; [reflexivity | reflexivity |].
  destruct (Ascii.eqb c "," && Ascii.eqb c2 " ") eqn:E.
  - rewrite split_cons_sep by exact E. destruct (sep_chars c c2 E) as [-> ->].
    reflexivity.
  - rewrite split_cons_other by exact E.
    destruct (Geo.split_comma_space (String c2 rest)); reflexivity.
Qed.

Lemma has_comma_space_cons (c : ascii) (p : string) :
  Geo.has_comma_space (String c p)
  = (Ascii.eqb c "," && Geo.starts_with_space p) || Geo.has_comma_space p.
Proof.
  destruct p as [| c2 p']; [simpl; rewrite andb_false_r; reflexivity | reflexivity].
Qed.

(** No part contains the separator. *)
Lemma split_parts_free (s : string) :
  Forall (fun p => Geo.has_comma_space p = false) (Geo.split_comma_space s).
Proof.
  pattern s. apply split_walk; clear s.
  - repeat constructor.
  - intros c. repeat constructor.
  - intros c c2 rest E IH. rewrite split_cons_sep by exact E.
    constructor; [reflexivity | exact IH].
  - intros c c2 rest E IH. rewrite split_cons_other by exact E.
    pose proof (head_starts_with_space (String c2 rest)) as Hhd.
    destruct (Geo.split_comma_space (String c2 rest)) as [| p ps];
      [repeat constructor |].
    cbn [Geo.extend]. inversion IH as [| ? ? Hp Hps]; subst.
    constructor; [| exact Hps].
    rewrite has_comma_space_cons, Hp. cbn [hd] in Hhd. rewrite Hhd.
    cbn [Geo.starts_with_space]. rewrite E. reflexivity.
Qed.

Lemma split_without_separator (s : string) :
  Geo.has_comma_space s = false -> Geo.split_comma_space s = [s].
Proof.
  pattern s. apply split_walk; clear s.
  - reflexivity.
  - reflexivity.
  - intros c c2 rest E _ H. cbn [Geo.has_comma_space] in H. rewrite E in H.
    discriminate H.
  - intros c c2 rest E IH H. rewrite split_cons_other by exact E.
    cbn [Geo.has_comma_space] in H. rewrite E in H.
    rewrite IH by exact H. reflexivity.
Qed.

Lemma split_with_separator (s : string) :
  Geo.has_comma_space s = true -> (2 <= List.length (Geo.split_comma_space s))%nat.
Proof.
  pattern s. apply split_walk; clear s.
  - discriminate.
  - discriminate.
  - intros c c2 rest E _ _. rewrite split_cons_sep by exact E.
    pose proof (split_not_nil rest).
    destruct (Geo.split_comma_space rest); [congruence | simpl; lia].
  - intros c c2 rest E IH H. rewrite split_cons_other by exact E.
    cbn [Geo.has_comma_space] in H. rewrite E in H. specialize (IH H).
    destruct (Geo.split_comma_space (String c2 rest)); simpl in *; lia.
Qed.

Lemma string_append_assoc (a b c : string) : (a ++ b) ++ c = a ++ (b ++ c).
Proof. induction a as [| x a IH]; [reflexivity | simpl; rewrite IH; reflexivity]. Qed.

Lemma concat_cons (p : string) (parts : list string) :
  parts <> [] ->
  String.concat ", " (p :: parts) = p ++ ", " ++ String.concat ", " parts.
Proof. destruct parts; [congruence | reflexivity]. Qed.

Lemma concat_snoc (parts : list string) (x : string) :
  parts <> [] ->
  String.concat ", " (parts ++ [x]) = String.concat ", " parts ++ ", " ++ x.
Proof.
  induction parts as [| p parts IH]; intros Hne; [congruence |].
  destruct parts as [| q ps]; [reflexivity |].
  change ((p :: q :: ps) ++ [x])%list with (p :: ((q :: ps) ++ [x]))%list.
  rewrite concat_cons by (destruct ps; discriminate).
  rewrite IH by discriminate.
  rewrite (concat_cons p (q :: ps)) by discriminate.
  rewrite !string_append_assoc. reflexivity.
Qed.

Lemma nth_length_cons (a : string) (l : list string) :
  nth (List.length l) (a :: l) EmptyString = last (a :: l) EmptyString.
Proof.
  revert a. induction l as [| b l IH]; intros a; [reflexivity |].
  change (nth (List.length (b :: l)) (a :: b :: l) EmptyString)
    with (nth (List.length l) (b :: l) EmptyString).
  rewrite IH. reflexivity.
Qed.

Lemma nth_length_minus_1 (parts : list string) :
  nth (List.length parts - 1) parts EmptyString = last parts EmptyString.
Proof.
  destruct parts as [| a l]; [reflexivity |].
  replace (List.length (a :: l) - 1)%nat with (List.length l) by (simpl; lia).
  apply nth_length_cons.
Qed.

(** X15: the city and country [geocodeAddress] takes from a display name:
    without [", "] in it the city is the whole name and the country is
    "Unknown"; otherwise the name starts with the city followed by [", "]
    and ends with [", "] followed by the country, and neither of the two
    contains [", "]: the city is the text before the first separator, the
    country the text after the last. *)
Theorem city_country_of_display_name (name : string) :
  (Geo.has_comma_space name = false ->
   Geo.city_country name = (name, "Unknown")) /\
  (Geo.has_comma_space name = true ->
   let '(city, country) := Geo.city_country name in
   Geo.has_comma_space city = false /\
   Geo.has_comma_space country = false /\
   (exists after, name = city ++ ", " ++ after) /\
   (exists before, name = before ++ ", " ++ country)).
Proof.
  unfold Geo.city_country. split; intros H.
  - rewrite (split_without_separator name H). reflexivity.
  - pose proof (split_with_separator name H) as Hlen.
    pose proof (split_parts_free name) as Hfree.
    pose proof (concat_split name) as Hjoin.
    destruct (Nat.leb_spec 2 (List.length (Geo.split_comma_space name))) as [_ | Hlt];
      [| lia].
    rewrite nth_length_minus_1.
    destruct (Geo.split_comma_space name) as [| p [| q ps]] eqn:Es;
      [simpl in Hlen; lia | simpl in Hlen; lia |].
    cbn [nth].
    rewrite Forall_forall in Hfree.
    destruct (@exists_last _ (p :: q :: ps) ltac:(discriminate)) as (front & z & Ez).
    assert (Hfront : front <> []).
    { destruct front; [| discriminate].
      apply (f_equal (@List.length string)) in Ez. simpl in Ez. lia. }
    assert (Hlast : last (p :: q :: ps) EmptyString = z)
      by (rewrite Ez; apply last_last).
    rewrite Hlast.
    repeat split.
    + apply Hfree. left. reflexivity.
    + apply Hfree. rewrite Ez. apply in_or_app. right. left. reflexivity.
    + exists (String.concat ", " (q :: ps)). rewrite <- Hjoin. reflexivity.
    + exists (String.concat ", " front). rewrite <- Hjoin, Ez.
      apply concat_snoc. exact Hfront.
Qed.

Lemma city_country_of_display_name_witness :
  Geo.city_country "Lisboa, Grande Lisboa, Portugal" = ("Lisboa", "Portugal") /\
  exists before, "Lisboa, Grande Lisboa, Portugal" = before ++ ", " ++ "Portugal".
Proof.
  split; [reflexivity |].
  exact (proj2 (proj2 (proj2
           (proj2 (city_country_of_display_name "Lisboa, Grande Lisboa, Portugal")
              eq_refl)))).
Defined.

(** *** Looking a place up *)

Lemma geocodeAddress_one_of (http : Geo.Http) (query : string) :
  (exists coords, Geo.geocodeAddress http query = (Some coords, None)) \/
  (exists cause, Geo.geocodeAddress http query = (None, Some cause)).
Proof.
  unfold Geo.geocodeAddress.
  destruct (Geo.NewRequest http _); [right; eexists; reflexivity |].
  destruct (Geo.Do http _ _) as [[status body] [e |]]; [right; eexists; reflexivity |].
  destruct (negb (status =? 200)); [right; eexists; reflexivity |].
  destruct (Geo.ReadAll http body) as [bytes [e |]]; [right; eexists; reflexivity |].
  destruct (Geo.Unmarshal http bytes) as [responses [e |]];
    [right; eexists; reflexivity |].
  destruct responses as [| response others]; [right; eexists; reflexivity |].
  destruct (Geo.parseFloat http (Geo.Lat response)) as [lat [e |]];
    [right; eexists; reflexivity |].
  destruct (Geo.parseFloat http (Geo.Lon response)) as [lon [e |]];
    [right; eexists; reflexivity |].
  destruct (Geo.city_country (Geo.DisplayName response)) as [city country].
  left. eexists. reflexivity.
Qed.

(** X16: [getLocationInfo] never dereferences a nil pointer; it returns either
    a location and no error - the coordinates, city and country of
    [geocodeAddress] with the timezone estimated from the longitude - or no
    location and the geocoding error behind the prefix "geocoding failed: ";
    the "timezone lookup failed" branch is never taken. *)
Theorem location_lookup (http : Geo.Http) (fallback : ConvFallback) (query : string) :
  match Geo.getLocationInfo http fallback query with
  | Geo.Panics => False
  | Geo.Returns (Some l, None) =>
      exists coords,
        Geo.geocodeAddress http query = (Some coords, None) /\
        l = {| Geo.locLat := Geo.cLat coords; Geo.locLon := Geo.cLon coords;
               Geo.Timezone :=
                 Geo.estimateTimezoneFromLongitude fallback (Geo.cLon coords);
               Geo.City := Geo.cCity coords; Geo.Country := Geo.cCountry coords |}
  | Geo.Returns (None, Some e) =>
      exists cause,
        Geo.geocodeAddress http query = (None, Some cause) /\
        e = "geocoding failed: " ++ cause
  | Geo.Returns _ => False
  end.
Proof.
  unfold Geo.getLocationInfo, Geo.getTimezoneFromCoords.
  destruct (geocodeAddress_one_of http query) as [[coords H] | [cause H]]; rewrite H.
  - exists coords. split; reflexivity.
  - exists cause. split; reflexivity.
Qed.

(** X17: when the request goes through with status 200 and the answer decodes
    to an empty list, [geocodeAddress] returns no coordinates and the error
    "no results found for: " followed by the query; when it decodes to a
    non-empty list whose first entry has parsable coordinates, the result is
    taken from that first entry alone, with the city and country of its
    display name. *)
Theorem geocoding_results
  (http : Geo.Http) (query body bytes : string)
  (responses : list Geo.NominatimResponse) :
  let url := "https://nominatim.openstreetmap.org/search" ++ "?" ++
             Geo.Encode http
               [("q", query); ("format", "json"); ("limit", "1"); ("addressdetails", "1")] in
  Geo.NewRequest http url = None ->
  Geo.Do http url "NomadCLI/1.0" = ((200, body), None) ->
  Geo.ReadAll http body = (bytes, None) ->
  Geo.Unmarshal http bytes = (responses, None) ->
  (responses = [] ->
   Geo.geocodeAddress http query = (None, Some ("no results found for: " ++ query))) /\
  (forall first others lat lon,
      responses = first :: others ->
      Geo.parseFloat http (Geo.Lat first) = (lat, None) ->
      Geo.parseFloat http (Geo.Lon first) = (lon, None) ->
      Geo.geocodeAddress http query =
        (Some {| Geo.cLat := lat; Geo.cLon := lon;
                 Geo.cCity := fst (Geo.city_country (Geo.DisplayName first));
                 Geo.cCountry := snd (Geo.city_country (Geo.DisplayName first)) |},
         None)).
Proof.
  intros url Hreq Hdo Hread Hjson. unfold Geo.geocodeAddress. fold url.
  rewrite Hreq, Hdo. cbn [negb Z.eqb Pos.eqb]. rewrite Hread, Hjson.
  split.
  - intros ->. reflexivity.
  - intros first others lat lon -> Hlat Hlon. rewrite Hlat, Hlon.
    destruct (Geo.city_country (Geo.DisplayName first)); reflexivity.
Qed.

Lemma geocoding_results_witness :
  Geo.geocodeAddress Geo.http_nothing "atlantis"
  = (None, Some "no results found for: atlantis").
Proof.
  exact (proj1 (geocoding_results Geo.http_nothing "atlantis" "body" "body" []
                  eq_refl eq_refl eq_refl eq_refl) eq_refl).
Defined.

(** *** The timezone estimate *)

Lemma magnitude_scaled (s : bool) (mx : positive) (ex n t : Z) :
  Geo.magnitude_le (S754_finite s mx ex) n -> 0 <= t -> 0 <= ex + t ->
  Zpos mx * 2 ^ (ex + t) <= n * 2 ^ t.
Proof.
  unfold Geo.magnitude_le. intros H Ht Hext.
  assert (Hp : 0 < 2 ^ t) by (apply Z.pow_pos_nonneg; lia).
  destruct (Z.leb_spec 0 ex).
  - rewrite Z.pow_add_r by lia. nia.
  - assert (Hp' : 0 < 2 ^ (ex + t)) by (apply Z.pow_pos_nonneg; lia).
    replace (2 ^ t) with (2 ^ (- ex) * 2 ^ (ex + t))
      by (rewrite <- Z.pow_add_r by lia; f_equal; lia).
    nia.
Qed.

Lemma shr_1_stands_for (mrs : shr_record) (N D : Z) :
  0 <= shr_m mrs -> 0 < D ->
  stands_for mrs N D -> stands_for (shr_1 mrs) N (2 * D).
Proof.
  destruct mrs as [m r s]. unfold stands_for. cbn [shr_m shr_r].
  intros Hm HD [[Hlo Hhi] _].
  destruct m as [| [p | p |] | p]; cbn [shr_1 shr_m shr_r]; lia.
Qed.

Lemma iter_shr_1_stands_for (p : positive) (mrs : shr_record) (N D : Z) :
  0 <= shr_m mrs -> 0 < D ->
  stands_for mrs N D -> stands_for (iter_pos shr_1 p mrs) N (2 ^ Zpos p * D).
Proof.
  revert mrs D. induction p as [p IH | p IH |]; intros mrs D Hm HD H; simpl iter_pos.
  - assert (Hp : 0 < 2 ^ Zpos p) by (apply Z.pow_pos_nonneg; lia).
    assert (H1 : 0 <= shr_m (shr_1 mrs))
      by (rewrite shr_1_m by assumption; apply Z.div_pos; lia).
    assert (H2 : 0 <= shr_m (iter_pos shr_1 p (shr_1 mrs)))
      by (rewrite iter_shr_1_m by assumption; apply Z.div_pos; lia).
    rewrite pow2_xI.
    replace (2 * (2 ^ Zpos p * 2 ^ Zpos p) * D)
      with (2 ^ Zpos p * (2 ^ Zpos p * (2 * D))) by ring.
    apply IH; [assumption | nia |].
    apply IH; [assumption | lia |].
    apply shr_1_stands_for; assumption.
  - assert (Hp : 0 < 2 ^ Zpos p) by (apply Z.pow_pos_nonneg; lia).
    assert (H2 : 0 <= shr_m (iter_pos shr_1 p mrs))
      by (rewrite iter_shr_1_m by assumption; apply Z.div_pos; lia).
    rewrite pow2_xO.
    replace (2 ^ Zpos p * 2 ^ Zpos p * D) with (2 ^ Zpos p * (2 ^ Zpos p * D)) by ring.
    apply IH; [assumption | nia |].
    apply IH; assumption.
  - change (2 ^ 1) with 2. apply shr_1_stands_for; assumption.
Qed.

Lemma shr_stands_for (mrs : shr_record) (e k N D : Z) :
  0 <= shr_m mrs -> 0 < D ->
  stands_for mrs N D -> stands_for (fst (shr mrs e k)) N (2 ^ Z.max k 0 * D).
Proof.
  intros Hm HD H. destruct k as [| p | p]; cbn [shr fst].
  - change (2 ^ Z.max 0 0) with 1. rewrite Z.mul_1_l. exact H.
  - replace (Z.max (Zpos p) 0) with (Zpos p) by lia.
    apply iter_shr_1_stands_for; assumption.
  - replace (Z.max (Zneg p) 0) with 0 by lia.
    change (2 ^ 0) with 1. rewrite Z.mul_1_l. exact H.
Qed.

(** The record the division starts from, for an even divisor. *)
Lemma division_stands_for (q r d : Z) :
  0 <= r < d ->
  stands_for (shr_record_of_loc q (new_location_even d r)) (q * d + r) d.
Proof.
  intros Hr. unfold new_location_even, stands_for.
  destruct (Z.eqb_spec r 0) as [-> | Hne]; cbn [shr_record_of_loc shr_m shr_r].
  - split; [lia | intros H; discriminate H].
  - destruct (Z.compare_spec (2 * r) d) as [Hc | Hc | Hc];
      cbn [shr_record_of_loc shr_m shr_r];
      (split; [lia |]); intros Hbit; try discriminate Hbit; lia.
Qed.

Lemma round_without_round_bit (mrs : shr_record) :
  shr_r mrs = false ->
  round_nearest_even (shr_m mrs) (loc_of_shr_record mrs) = shr_m mrs.
Proof. destruct mrs as [m [] []]; intros H; try discriminate H; reflexivity. Qed.

(** [binary_round_aux] spelled out for the exact value [N / D] in units of
    [2 ^ ex]: the rounded mantissa [m1] at the exponent [e1] of the first
    shift is not below any integer the value reaches and not above any
    integer whose half-way point the value stays under; the result is that
    mantissa shifted once more to the exponent its own size asks for. *)
Lemma round_aux_spec (sx : bool) (mx ex : Z) (lx : location) (N D lo hi : Z) :
  0 <= mx -> 0 < D ->
  stands_for (shr_record_of_loc mx lx) N D ->
  let e1 := Z.max ex (fexp 53 1024 (Zdigits2 mx + ex)) in
  lo * (2 ^ (e1 - ex) * D) <= N ->
  2 * N < (2 * hi + 1) * (2 ^ (e1 - ex) * D) ->
  exists m1 e2,
    lo <= m1 <= hi /\
    e2 = Z.max e1 (fexp 53 1024 (Zdigits2 m1 + e1)) /\
    binary_round_aux 53 1024 sx mx ex lx =
      match m1 / 2 ^ (e2 - e1) with
      | Z0 => S754_zero sx
      | Zpos m => if e2 <=? 1024 - 53 then S754_finite sx m e2 else S754_infinity sx
      | Zneg _ => S754_nan
      end.
Proof.
  intros Hmx HD Hrec e1 Hlo Hhi. unfold binary_round_aux, shr_fexp.
  set (k1 := fexp 53 1024 (Zdigits2 mx + ex) - ex).
  pose proof (shr_spec (shr_record_of_loc mx lx) ex k1) as Hs1.
  pose proof (shr_stands_for (shr_record_of_loc mx lx) ex k1 N D) as Hb1.
  rewrite shr_record_of_loc_m in Hs1, Hb1.
  specialize (Hs1 Hmx). specialize (Hb1 Hmx HD Hrec).
  destruct (shr (shr_record_of_loc mx lx) ex k1) as [mrs1 e1']. cbn [fst snd] in Hs1, Hb1.
  destruct Hs1 as [Hm1 He1].
  assert (Ee1 : e1' = e1) by (unfold e1, k1 in *; lia).
  assert (Ek1 : Z.max k1 0 = e1 - ex) by (unfold e1, k1 in *; lia).
  rewrite Ek1 in Hb1, Hm1.
  set (m1 := round_nearest_even (shr_m mrs1) (loc_of_shr_record mrs1)).
  pose proof (round_nearest_even_bounds (shr_m mrs1) (loc_of_shr_record mrs1)) as Hr.
  fold m1 in Hr.
  assert (Hp1 : 0 < 2 ^ (e1 - ex)) by (apply Z.pow_pos_nonneg; unfold e1; lia).
  assert (HD1 : 0 < 2 ^ (e1 - ex) * D) by nia.
  assert (Hm1pos : 0 <= shr_m mrs1) by (rewrite Hm1; apply Z.div_pos; lia).
  destruct Hb1 as [[Hfloor Hceil] Hbit].
  assert (Hm1lo : lo <= shr_m mrs1) by nia.
  assert (Hm1hi : m1 <= hi).
  { destruct (shr_r mrs1) eqn:Er.
    - specialize (Hbit eq_refl). nia.
    - unfold m1. rewrite round_without_round_bit by exact Er. nia. }
  set (k2 := fexp 53 1024 (Zdigits2 m1 + e1') - e1').
  pose proof (shr_spec (shr_record_of_loc m1 loc_Exact) e1' k2) as Hs2.
  rewrite shr_record_of_loc_m in Hs2. specialize (Hs2 ltac:(lia)).
  destruct (shr (shr_record_of_loc m1 loc_Exact) e1' k2) as [mrs2 e2]. cbn [fst snd] in Hs2.
  destruct Hs2 as [Hm2 He2].
  exists m1, e2. split; [lia |].
  assert (Ee2 : e2 = Z.max e1 (fexp 53 1024 (Zdigits2 m1 + e1)))
    by (unfold k2 in *; rewrite Ee1 in *; lia).
  split; [exact Ee2 |].
  replace (e2 - e1) with (Z.max k2 0) by (unfold k2 in *; rewrite Ee1 in *; lia).
  rewrite <- Hm2. reflexivity.
Qed.

(** What the division by 15 hands to the rounding: a quotient [q] at an
    exponent [e'] chosen from the sizes alone, standing for the exact
    quotient. *)
Lemma div15_core (mx : positive) (ex : Z) :
  let '(q, e', l) :=
    SFdiv_core_binary 53 1024 (Zpos mx) ex 8444249301319680 (-49) in
  0 <= q /\
  e' = Z.min (fexp 53 1024 (Zpos (digits2_pos mx) + ex - 4)) (ex + 49) /\
  stands_for (shr_record_of_loc q l) (Zpos mx * 2 ^ (ex + 49 - e')) 8444249301319680.
Proof.
  unfold SFdiv_core_binary.
  change (Zdigits2 (Zpos mx)) with (Zpos (digits2_pos mx)).
  change (Zdigits2 8444249301319680) with 53.
  replace (Zpos (digits2_pos mx) + ex - (53 + -49))
    with (Zpos (digits2_pos mx) + ex - 4) by lia.
  replace (ex - -49) with (ex + 49) by lia.
  set (e' := Z.min _ (ex + 49)).
  set (s := ex + 49 - e').
  set (m' := match s with Z0 => Zpos mx | Zpos _ => Z.shiftl (Zpos mx) s | Zneg _ => 0 end).
  assert (Hs : 0 <= s) by (unfold s, e'; lia).
  assert (Hm' : m' = Zpos mx * 2 ^ s).
  { unfold m'. destruct s as [| p | p] eqn:Es; [simpl; lia | | lia].
    rewrite Z.shiftl_mul_pow2 by lia. reflexivity. }
  pose proof (Z_div_mod m' 8444249301319680 ltac:(lia)) as Hdiv.
  assert (Hp : 0 < 2 ^ s) by (apply Z.pow_pos_nonneg; lia).
  destruct (Z.div_eucl m' 8444249301319680) as [q r]. destruct Hdiv as [Hq Hr].
  assert (Hq0 : 0 <= q).
  { destruct (Z_lt_le_dec q 0) as [Hneg |]; [| assumption].
    assert (8444249301319680 * q <= 8444249301319680 * (-1))
      by (apply Z.mul_le_mono_nonneg_l; lia).
    lia. }
  split; [exact Hq0 |]. split; [reflexivity |].
  change (new_location 8444249301319680 r)
    with (new_location_even 8444249301319680 r).
  fold s. rewrite <- Hm'.
  replace m' with (q * 8444249301319680 + r) by lia.
  apply division_stands_for. exact Hr.
Qed.

Lemma whole_hours_scaled (s : bool) (mx : positive) (ex t : Z) :
  0 <= t -> 0 <= ex + t ->
  let j := whole_hours (S754_finite s mx ex) in
  0 <= j /\
  15 * j * 2 ^ t <= Zpos mx * 2 ^ (ex + t) < 15 * (j + 1) * 2 ^ t.
Proof.
  intros Ht Hext. cbn [whole_hours].
  assert (Hp : 0 < 2 ^ t) by (apply Z.pow_pos_nonneg; lia).
  destruct (Z.leb_spec 0 ex).
  - assert (Hpe : 0 < 2 ^ ex) by (apply Z.pow_pos_nonneg; lia).
    pose proof (Z.div_mod (Zpos mx * 2 ^ ex) 15 ltac:(lia)) as Hdm.
    pose proof (Z.mod_pos_bound (Zpos mx * 2 ^ ex) 15 ltac:(lia)) as Hmod.
    set (j := Zpos mx * 2 ^ ex / 15) in *.
    assert (0 <= j) by (apply Z.div_pos; nia).
    rewrite Z.pow_add_r by lia. split; [assumption | nia].
  - assert (Hpe : 0 < 2 ^ (- ex)) by (apply Z.pow_pos_nonneg; lia).
    assert (Hp' : 0 < 2 ^ (ex + t)) by (apply Z.pow_pos_nonneg; lia).
    pose proof (Z.div_mod (Zpos mx) (15 * 2 ^ (- ex)) ltac:(lia)) as Hdm.
    pose proof (Z.mod_pos_bound (Zpos mx) (15 * 2 ^ (- ex)) ltac:(lia)) as Hmod.
    set (j := Zpos mx / (15 * 2 ^ (- ex))) in *.
    assert (0 <= j) by (apply Z.div_pos; lia).
    replace (2 ^ t) with (2 ^ (- ex) * 2 ^ (ex + t))
      by (rewrite <- Z.pow_add_r by lia; f_equal; lia).
    split; [assumption | nia].
Qed.

(** A positive multiple of [2 ^ c] is at least [2 ^ c]. *)
Lemma gap_at_least_unit (a b ea eb c : Z) :
  0 <= c -> c <= ea -> c <= eb -> b * 2 ^ eb < a * 2 ^ ea ->
  2 ^ c <= a * 2 ^ ea - b * 2 ^ eb.
Proof.
  intros Hc Ha Hb Hlt.
  assert (Hp : 0 < 2 ^ c) by (apply Z.pow_pos_nonneg; lia).
  assert (Ea : 2 ^ ea = 2 ^ (ea - c) * 2 ^ c)
    by (rewrite <- Z.pow_add_r by lia; f_equal; lia).
  assert (Eb : 2 ^ eb = 2 ^ (eb - c) * 2 ^ c)
    by (rewrite <- Z.pow_add_r by lia; f_equal; lia).
  rewrite Ea, Eb in *.
  set (u := a * 2 ^ (ea - c)). set (v := b * 2 ^ (eb - c)).
  replace (a * (2 ^ (ea - c) * 2 ^ c)) with (u * 2 ^ c) in * by (unfold u; ring).
  replace (b * (2 ^ (eb - c) * 2 ^ c)) with (v * 2 ^ c) in * by (unfold v; ring).
  assert (v < u) by (apply Z.mul_lt_mono_pos_r with (2 ^ c); assumption).
  nia.
Qed.

(** [int(lon / 15)] is the whole hours of the longitude, towards its side:
    the division rounds to nearest, and that never reaches the next hour. *)
Lemma hours_of_longitude_exact
  (fallback : ConvFallback) (s : bool) (mx : positive) (ex : Z) :
  Zpos (digits2_pos mx) <= 53 ->
  whole_hours (S754_finite s mx ex) < 2 ^ 31 ->
  int64_of_float64 fallback (f64_div (S754_finite s mx ex) Geo.f64_15)
  = if s then - whole_hours (S754_finite s mx ex)
    else whole_hours (S754_finite s mx ex).
Proof.
  intros Hdx Hj.
  remember (whole_hours (S754_finite s mx ex)) as j eqn:Ej.
  pose proof (digits2_pos_bounds mx) as [Hmlo Hmhi].
  (* the size of the longitude *)
  assert (Hsize : Zpos (digits2_pos mx) + ex <= 35).
  { destruct (whole_hours_scaled s mx ex (Z.max 0 (- ex)) ltac:(lia) ltac:(lia))
      as [_ [_ Hlt]]. cbv zeta in Hlt. rewrite <- Ej in Hlt.
    set (t := Z.max 0 (- ex)) in *.
    assert (Hpt : 0 < 2 ^ t) by (apply Z.pow_pos_nonneg; lia).
    assert (Hpe : 0 < 2 ^ (ex + t)) by (apply Z.pow_pos_nonneg; lia).
    assert (H35 : 15 * (j + 1) * 2 ^ t <= 2 ^ (35 + t)).
    { rewrite Z.pow_add_r by lia. change (2 ^ 35) with (16 * 2 ^ 31). nia. }
    assert (Hpow : 2 ^ (Zpos (digits2_pos mx) - 1 + (ex + t)) < 2 ^ (35 + t)).
    { rewrite Z.pow_add_r by lia. nia. }
    apply Z.pow_lt_mono_r_iff in Hpow; lia. }
  unfold f64_div, Geo.f64_15, SFdiv.
  pose proof (div15_core mx ex) as Hcore.
  pose proof (div_core_bound mx 8444249301319680 ex (-49)) as Hdig.
  change (Zpos (digits2_pos 8444249301319680)) with 53 in Hdig.
  destruct (SFdiv_core_binary 53 1024 (Zpos mx) ex 8444249301319680 (-49))
    as [[q e'] l].
  destruct Hcore as (Hq & He' & Hrec). destruct Hdig as [_ Hdq].
  rewrite xorb_false_r. rewrite fexp64 in He'.
  set (t := 49 - e').
  assert (Ht : 22 <= t /\ 0 <= ex + t) by (unfold t; lia).
  replace (ex + 49 - e') with (ex + t) in Hrec by (unfold t; lia).
  destruct (whole_hours_scaled s mx ex t ltac:(lia) ltac:(lia)) as [Hj0 [Hjlo Hjhi]].
  cbv zeta in Hj0, Hjlo, Hjhi. rewrite <- Ej in Hj0, Hjlo, Hjhi.
  set (N := Zpos mx * 2 ^ (ex + t)) in *.
  set (e1 := Z.max e' (fexp 53 1024 (Zdigits2 q + e'))).
  assert (He1 : e' <= e1 <= -21 /\ e1 <= Z.max (ex - 3) (-1074))
    by (unfold e1; rewrite fexp64; lia).
  assert (Hpt : 0 < 2 ^ t) by (apply Z.pow_pos_nonneg; lia).
  assert (Hp1 : 0 < 2 ^ (- e1)) by (apply Z.pow_pos_nonneg; lia).
  assert (Hpd : 0 < 2 ^ (e1 - e')) by (apply Z.pow_pos_nonneg; lia).
  assert (Hpte : 0 < 2 ^ (t + e1)) by (apply Z.pow_pos_nonneg; unfold t; lia).
  assert (Hunit : 2 ^ (- e1) * (2 ^ (e1 - e') * 8444249301319680) = 15 * 2 ^ t).
  { change 8444249301319680 with (15 * 2 ^ 49).
    replace t with (- e1 + (e1 - e') + 49) by (unfold t; lia).
    rewrite !Z.pow_add_r by lia. ring. }
  assert (Hhalf : 2 ^ (e1 - e') * 8444249301319680 = 15 * 2 ^ (t + e1)).
  { change 8444249301319680 with (15 * 2 ^ 49).
    replace (t + e1) with (e1 - e' + 49) by (unfold t; lia).
    rewrite Z.pow_add_r by lia. ring. }
  (* the exact quotient stays more than half a unit below the next hour *)
  assert (Hgap : 15 * 2 ^ (t + e1) < 2 * (15 * (j + 1) * 2 ^ t - N)).
  { destruct (Z_le_gt_dec (-1071) ex) as [Hnormal | Htiny].
    - pose proof (gap_at_least_unit (15 * (j + 1)) (Zpos mx) t (ex + t)
                    (t + e1 + 3) ltac:(unfold t; lia) ltac:(lia) ltac:(lia) Hjhi) as Hu.
      replace (t + e1 + 3) with (3 + (t + e1)) in Hu by lia.
      rewrite Z.pow_add_r in Hu by (unfold t; lia).
      change (2 ^ 3) with 8 in Hu. lia.
    - assert (Hsmall : N < 2 ^ t).
      { unfold N.
        apply Z.lt_le_trans with (2 ^ Zpos (digits2_pos mx) * 2 ^ (ex + t)).
        - apply Z.mul_lt_mono_pos_r; [apply Z.pow_pos_nonneg; lia | exact Hmhi].
        - rewrite <- Z.pow_add_r by lia. apply Z.pow_le_mono_r; lia. }
      assert (2 ^ (t + e1) <= 2 ^ t) by (apply Z.pow_le_mono_r; lia).
      nia. }
  destruct (round_aux_spec s q e' l N 8444249301319680
              (j * 2 ^ (- e1)) ((j + 1) * 2 ^ (- e1) - 1)
              Hq ltac:(lia) Hrec) as (m1 & e2 & Hm1 & He2 & Hres).
  { fold e1. rewrite <- Z.mul_assoc, Hunit. lia. }
  { fold e1. rewrite Hhalf.
    replace (2 * ((j + 1) * 2 ^ (- e1) - 1) + 1)
      with (2 * (j + 1) * 2 ^ (- e1) - 1) by ring.
    assert (E : 2 ^ (- e1) * (15 * 2 ^ (t + e1)) = 15 * 2 ^ t).
    { rewrite <- Hhalf. exact Hunit. }
    nia. }
  fold e1 in He2, Hres. rewrite Hres. clear Hres.
  (* the second shift *)
  assert (Hm1pos : 0 <= m1) by nia.
  assert (Hd1 : Zdigits2 m1 <= 31 + - e1).
  { apply Zdigits2_upper; [| lia]. split; [exact Hm1pos |].
    rewrite Z.pow_add_r by lia. nia. }
  rewrite fexp64 in He2.
  assert (He2' : e1 <= e2 <= -21) by lia.
  assert (Hp2 : 0 < 2 ^ (- e2)) by (apply Z.pow_pos_nonneg; lia).
  assert (Hp21 : 0 < 2 ^ (e2 - e1)) by (apply Z.pow_pos_nonneg; lia).
  assert (Hsplit : 2 ^ (- e1) = 2 ^ (- e2) * 2 ^ (e2 - e1)).
  { rewrite <- Z.pow_add_r by lia. f_equal. lia. }
  remember (m1 / 2 ^ (e2 - e1)) as m2 eqn:Em2.
  assert (Hm2 : j * 2 ^ (- e2) <= m2 < (j + 1) * 2 ^ (- e2)).
  { rewrite Em2. split.
    - apply Z.div_le_lower_bound; [lia |]. rewrite Hsplit in Hm1. nia.
    - apply Z.div_lt_upper_bound; [lia |]. rewrite Hsplit in Hm1. nia. }
  assert (Hin : forall w, - j <= w <= j ->
                          (Int64.min_int <=? w) && (w <=? Int64.max_int) = true).
  { intros w Hw. unfold Int64.min_int, Int64.max_int. apply andb_true_intro.
    change (2 ^ 31) with 2147483648 in Hj.
    split; apply Z.leb_le; lia. }
  clear Em2. destruct m2 as [| m | m].
  - assert (Hzero : j = 0) by nia. rewrite Hzero. destruct s; reflexivity.
  - destruct (Z.leb_spec e2 (1024 - 53)) as [_ | Hbig]; [| lia].
    unfold int64_of_float64.
    destruct (Z.leb_spec 0 e2) as [Hpos | _]; [lia |].
    assert (Hz : Zpos m / 2 ^ (- e2) = j).
    { symmetry. apply Z.div_unique with (Zpos m - j * 2 ^ (- e2)); lia. }
    rewrite Hz. destruct s; rewrite Hin by lia; reflexivity.
  - lia.
Qed.

Lemma valid_mantissa_fits (s : bool) (mx : positive) (ex : Z) :
  float64_valid (S754_finite s mx ex) = true -> Zpos (digits2_pos mx) <= 53.
Proof.
  unfold float64_valid, valid_binary, bounded, canonical_mantissa.
  intros H. apply andb_prop in H as [H _]. apply Z.eqb_eq in H.
  rewrite fexp64 in H. lia.
Qed.

(** X18: for a finite binary64 longitude of at most [15 * k] degrees east
    or west, [estimateTimezoneFromLongitude] names the zone of the whole
    hours [n] in the longitude - [|lon| / 15] rounded down, so at most [k] -
    the same on every platform: "Etc/GMT+n" west of Greenwich from 15
    degrees on, "Etc/GMT-n" east of it and, with [n = 0], for every
    longitude less than 15 degrees west.  The division rounds to nearest
    and still never reaches the next hour. *)
Theorem timezone_of_longitude (fallback : ConvFallback) (lon : float64) (k : Z) :
  0 <= k < 2 ^ 31 ->
  float64_valid lon = true ->
  Geo.magnitude_le lon (15 * k) ->
  let n := whole_hours lon in
  0 <= n <= k /\
  Geo.estimateTimezoneFromLongitude fallback lon
  = (if Geo.west lon && (0 <? n) then "Etc/GMT+" else "Etc/GMT-") ++ Geo.decimal n.
Proof.
  intros Hk Hvalid Hmag n. unfold Geo.estimateTimezoneFromLongitude.
  destruct lon as [s | s | | s mx ex]; try contradiction.
  - subst n. cbn [whole_hours]. split; [lia |]. rewrite andb_false_r. reflexivity.
  - assert (Hn : 0 <= n <= k).
    { destruct (whole_hours_scaled s mx ex (Z.max 0 (- ex)) ltac:(lia) ltac:(lia))
        as [Hn0 [Hlo _]]. fold n in Hn0, Hlo.
      pose proof (magnitude_scaled s mx ex (15 * k) (Z.max 0 (- ex)) Hmag
                    ltac:(lia) ltac:(lia)) as Hhi.
      assert (0 < 2 ^ Z.max 0 (- ex)) by (apply Z.pow_pos_nonneg; lia).
      split; [exact Hn0 | nia]. }
    split; [exact Hn |].
    rewrite (hours_of_longitude_exact fallback s mx ex
               (valid_mantissa_fits s mx ex Hvalid) ltac:(fold n; lia)).
    fold n. cbn [Geo.west].
    destruct s; cbn [andb].
    + destruct (Z.ltb_spec 0 n) as [Hpos | Hzero].
      * destruct (Z.geb_spec (- n) 0) as [Hge | Hlt]; [lia |].
        unfold Geo.neg. rewrite Z.opp_involutive.
        rewrite wrap_small; [reflexivity |].
        assert (2 ^ 31 < 2 ^ 63) by (apply Z.pow_lt_mono_r; lia). lia.
      * assert (E : n = 0) by lia. rewrite E. reflexivity.
    + destruct (Z.geb_spec n 0) as [Hge | Hlt]; [reflexivity | lia].
Qed.

Lemma timezone_of_longitude_witness :
  Geo.estimateTimezoneFromLongitude amd64_conv Geo.new_york_lon = "Etc/GMT+4" /\
  Geo.estimateTimezoneFromLongitude arm64_conv Geo.lisbon_lon = "Etc/GMT-0".
Proof.
  split.
  - refine (proj2 (timezone_of_longitude amd64_conv Geo.new_york_lon 12 _ _ _)).
    + split; [lia | reflexivity].
    + reflexivity.
    + vm_compute. discriminate.
  - refine (proj2 (timezone_of_longitude arm64_conv Geo.lisbon_lon 12 _ _ _)).
    + split; [lia | reflexivity].
    + reflexivity.
    + vm_compute. discriminate.
Defined.
